(** * LiveBench answer generation: [get_answer] and [run_questions]

    A shallow embedding of [livebench/gen_api_answer.py].

    Conventions of the embedding.
    - A Python [str] is the list of its code points ([text]); the Unicode
      tables behind [str.isalpha] and [str.isupper] are taken as given
      ([PyStr]).
    - [random], [datetime], [time], [shortuuid], the model API and the
      thread-pool scheduler are the outside world: an [Environment] whose
      state is threaded through every call.
    - A file is the list of the lines written to it; a line written as
      [json.dumps(x) + "\n"] is kept as the value [x].  Directories are not
      tracked, except that [os.makedirs] refuses the empty path.
    - Exceptions are results ([Raise]); the statements of the program run in
      a state-and-exception monad [M] over [World].
    - The world carries a [trace] of observable events (entries into
      [get_answer], model requests, file writes, post-passes).  The trace is
      instrumentation: no modelled code reads it. *)

From Stdlib Require Import ZArith QArith Ascii String List Lia Permutation.
From stdpp Require Import base option list gmap.

Local Open Scope Z_scope.
Local Open Scope list_scope.

(** ** Python strings *)

Definition char : Type := N.
Definition text : Type := list char.

(** A string literal of the source. *)
Definition str (s : string) : text :=
  List.map N_of_ascii (list_ascii_of_string s).

(** The two Unicode predicates the program uses. *)
Class PyStr := {
  isalpha : char -> bool;
  isupper : char -> bool
}.

Definition char_eqb (a b : char) : bool := N.eqb a b.

Fixpoint startswith (s pre : text) : bool :=
  match pre, s with
  | [], _ => true
  | p :: pre', c :: s' => char_eqb p c && startswith s' pre'
  | _ :: _, [] => false
  end.

(** [replace_from skip s]: the scan of [s.replace(old, new)] for a non-empty
    [old]; [skip] counts the characters of a match still to be passed over. *)
Fixpoint replace_from (old new : text) (skip : nat) (s : text) : text :=
  match s with
  | [] => []
  | c :: s' =>
      match skip with
      | S k => replace_from old new k s'
      | O =>
          if startswith s old
          then new ++ replace_from old new (Nat.pred (length old)) s'
          else c :: replace_from old new O s'
      end
  end.

(** [s.replace(old, new)]: every non-overlapping occurrence, left to right;
    an empty [old] matches before every character and at the end. *)
Definition replace (s old new : text) : text :=
  match old with
  | [] => new ++ flat_map (fun c => c :: new) s
  | _ :: _ => replace_from old new O s
  end.

(** [s.rfind("/") + 1]. *)
Fixpoint after_last_slash (s : text) : nat :=
  match s with
  | [] => O
  | c :: s' =>
      match after_last_slash s' with
      | O => if char_eqb c 47%N then 1%nat else O
      | S k => S (S k)
      end
  end.

Fixpoint rstrip_slash_rev (r : text) : text :=
  match r with
  | c :: r' => if char_eqb c 47%N then rstrip_slash_rev r' else r
  | [] => []
  end.

(** [posixpath.dirname]. *)
Definition os_path_dirname (p : text) : text :=
  let head := firstn (after_last_slash p) p in
  if forallb (fun c => char_eqb c 47%N) head then head
  else rev (rstrip_slash_rev (rev head)).

Definition ascii_uppercase : text := str "ABCDEFGHIJKLMNOPQRSTUVWXYZ".
Definition ascii_lowercase : text := str "abcdefghijklmnopqrstuvwxyz".

(** ** Exceptions and results *)

Inductive exn : Type :=
| AssertionError
| NameError (name : text)
| UnboundLocalError (name : text)
| IndexError
| FileNotFoundError (path : text)
| ValueError (msg : text)
| ApiError (msg : text).

Inductive Result (A : Type) : Type :=
| Ok (a : A)
| Raise (e : exn).
Arguments Ok {A} a.
Arguments Raise {A} e.

Definition is_ok {A} (r : Result A) : bool :=
  match r with Ok _ => true | Raise _ => false end.

(** ** Data model *)

Module Question.
(** A question dictionary: the keys the program reads. *)
Record t := mk {
  question_id : text;
  turns : list text;
  required_temperature : option Q
}.
(** [modified_question["turns"] = v] on a copy. *)
Definition set_turns (q : t) (v : list text) : t :=
  {| question_id := question_id q; turns := v;
     required_temperature := required_temperature q |}.
End Question.

Module Choice.
Record t := mk { index : Z; turns : list text }.
End Choice.

Module Answer.
(** The dictionary [ans] dumped to the answer file. *)
Record t := mk {
  question_id : text;
  answer_id : text;
  model_id : text;
  choices : list Choice.t;
  tstamp : Q;
  total_output_tokens : Z
}.
End Answer.

Module Modification.
(** The dictionary [modification_data] dumped to the questions file. *)
Record t := mk {
  question_id : text;
  model_id : text;
  original_turns : list text;
  modified_turns : list text;
  randomize_prompt_applied : bool;
  add_noise_applied : bool;
  random_prefix : text;
  tstamp : Q
}.
End Modification.

(** One line of a line-delimited JSON file. *)
Inductive Line : Type :=
| AnswerLine (a : Answer.t)
| ModificationLine (m : Modification.t).

Abbreviation Files := (gmap text (list Line)).

(** The command-line namespace [args], as far as the two functions read it. *)
Module Args.
Record t := mk {
  force_temperature : option Q;
  resume : bool;
  retry_failures : bool
}.
End Args.

Module ApiDict.
Record t := mk { api_key : text; api_base : text }.
End ApiDict.

Module Conversation.
(** Modelled from the spec: the conversation state of
    [livebench.conversation], a module outside this development: "a
    mutable sequence of role-tagged messages, seeded from a model-specific
    template; grows by one request/response pair per turn". *)
Record t := mk {
  roles : text * text;
  messages : list (text * option text)
}.

Definition append_message (conv : t) (role : text) (message : option text) : t :=
  {| roles := roles conv; messages := messages conv ++ [(role, message)] |}.

Fixpoint set_last (ms : list (text * option text)) (message : text)
  : list (text * option text) :=
  match ms with
  | [] => []
  | [(role, _)] => [(role, Some message)]
  | m :: ms' => m :: set_last ms' message
  end.

Definition update_last_message (conv : t) (message : text) : t :=
  {| roles := roles conv; messages := set_last (messages conv) message |}.
End Conversation.

(** ** The outside world *)

Class Environment (E : Type) := {
  (** [random.choice(seq)] on a sequence of the given length: the index drawn. *)
  random_choice : nat -> E -> nat * E;
  (** [random.random()], as a rational. *)
  random_random : E -> Q * E;
  (** [datetime.datetime.now().strftime("%Y-%m-%d %H:%M:%S")]. *)
  datetime_now : E -> text * E;
  (** [time.time()]. *)
  time_time : E -> Q * E;
  (** [shortuuid.uuid()]. *)
  shortuuid_uuid : E -> text * E;
  (** The order in which a pool of the given number of submitted tasks
      completes them. *)
  as_completed : nat -> E -> list nat * E;
  random_choice_lt : forall n e, (0 < n)%nat -> (fst (random_choice n e) < n)%nat;
  as_completed_perm : forall n e, Permutation (fst (as_completed n e)) (seq 0 n)
}.

Section Program.

Context {E : Type} `{Environment E} `{PyStr}.

(** A model request: conversation, temperature, token limit, API dictionary
    in; generated text and token count, or an exception, out. *)
Definition ApiFunction : Type :=
  Conversation.t -> option Q -> Z -> option ApiDict.t -> E -> Result (text * Z) * E.

Record Adapter := { get_default_conv_template : text -> Conversation.t }.

(** [livebench.model.Model].  [api_function] is stored already applied to
    the model it belongs to (the source passes [model] back as the first
    argument). *)
Record Model := {
  api_name : text;
  display_name : text;
  adapter : Adapter;
  api_function : option ApiFunction
}.

(** The functions imported from [livebench.common] and
    [livebench.model.completions]. *)
Class Imports := {
  chat_completion_openai :
    Model -> Conversation.t -> option Q -> Z -> option ApiDict.t -> bool ->
    E -> Result (text * Z) * E;
  reorg_answer_file : text -> Files -> Result unit * Files
}.

Context `{Imports}.

(** ** World, trace and monad *)

Inductive Event : Type :=
| EvGetAnswer (question : Question.t)
| EvRequest (conv : Conversation.t) (temperature : option Q) (max_tokens : Z)
    (reply : Result (text * Z))
| EvAppend (path : text) (line : Line)
| EvTruncate (path : text)
| EvReorg (path : text).

Record World := {
  env : E;
  files : Files;
  trace : list Event
}.

Definition M (A : Type) : Type := World -> Result A * World.

Definition ret {A} (a : A) : M A := fun w => (Ok a, w).

Definition raise {A} (e : exn) : M A := fun w => (Raise e, w).

Definition bind {A B} (c : M A) (k : A -> M B) : M B :=
  fun w => match c w with
           | (Ok a, w') => k a w'
           | (Raise e, w') => (Raise e, w')
           end.

Notation "'let!' x ':=' c 'in' k" := (bind c (fun x => k))
  (at level 10, x pattern, c at level 100, k at level 200, only parsing).
Notation "'do!' c 'in' k" := (bind c (fun _ => k))
  (at level 10, c at level 100, k at level 200, only parsing).

(** An environment computation run inside the world. *)
Definition from_env {A} (g : E -> A * E) : M A :=
  fun w => let '(a, e') := g (env w) in
           (Ok a, {| env := e'; files := files w; trace := trace w |}).

Definition emit (ev : Event) : M unit :=
  fun w => (Ok tt, {| env := env w; files := files w; trace := trace w ++ [ev] |}).

Definition assert_ (b : bool) : M unit :=
  if b then ret tt else raise AssertionError.

Fixpoint for_each {A S} (xs : list A) (body : A -> S -> M S) (s : S) : M S :=
  match xs with
  | [] => ret s
  | x :: xs' => let! s' := body x s in for_each xs' body s'
  end.

(** [range(n)]. *)
Definition range (n : Z) : list Z := List.map Z.of_nat (seq 0 (Z.to_nat n)).

(** ** File operations *)

(** [os.makedirs(path, exist_ok=True)]. *)
Definition os_makedirs (path : text) : M unit :=
  match path with
  | [] => raise (FileNotFoundError [])
  | _ :: _ => ret tt
  end.

(** The files after one more line at the end of [path], created if absent. *)
Definition file_append (fs : Files) (path : text) (l : Line) : Files :=
  <[path := default [] (fs !! path) ++ [l]]> fs.

(** [with open(path, "a") as fout: fout.write(json.dumps(x) + "\n")]. *)
Definition append_line (path : text) (l : Line) : M unit :=
  fun w => (Ok tt, {| env := env w;
                      files := file_append (files w) path l;
                      trace := trace w ++ [EvAppend path l] |}).

(** [with open(path, "w") as f: pass]. *)
Definition truncate (path : text) : M unit :=
  fun w => (Ok tt, {| env := env w;
                      files := <[path := []]> (files w);
                      trace := trace w ++ [EvTruncate path] |}).

Definition call_reorg_answer_file (path : text) : M unit :=
  fun w => let '(r, fs') := reorg_answer_file path (files w) in
           (r, {| env := env w; files := fs'; trace := trace w ++ [EvReorg path] |}).


(** ** [get_answer] *)

(** The module-level name [args]: bound by the script's entry point, unbound
    in a module that is merely imported. *)
Variable args : option Args.t.

Definition global_args : M Args.t :=
  match args with
  | Some a => ret a
  | None => raise (NameError (str "args"))
  end.

(** [seq[j]] for an index that was taken from [range(len(seq))]. *)
Definition getitem {A} (xs : list A) (j : nat) : M A :=
  match xs !! j with
  | Some x => ret x
  | None => raise IndexError
  end.

(** [random.choice(s)] on a non-empty string [s]. *)
Definition choice (s : text) (e : E) : char * E :=
  let '(i, e') := random_choice (length s) e in (nth i s 0%N, e').

Definition Qltb (x y : Q) : bool := negb (Qle_bool y x).

Definition is_not_None {A} (o : option A) : bool :=
  match o with Some _ => true | None => false end.

Definition text_eqb (a b : text) : bool := bool_decide (a = b).

(** Lines 74-80: the random header. *)
Definition make_random_prefix (e : E) : text * E :=
  let letters := str "abcdefgh" in
  let digits := str "12345678" in
  let '(c1, e) := choice letters e in
  let '(c2, e) := choice digits e in
  let '(c3, e) := choice letters e in
  let '(c4, e) := choice digits e in
  let name := [c1; c2; c3; c4] in
  let '(datetime_str, e) := datetime_now e in
  (str "Hello " ++ name ++ str ", " ++ datetime_str ++ [10%N; 10%N], e).

(** Lines 106-114: the loop over the characters of [modified_prompt].
    [random.random()] returns a multiple of 2^-53, and on those values the
    test against the double [0.01] is the test against 1/100: no multiple
    of 2^-53 lies between the two. *)
Fixpoint add_noise_loop (chars : text) (noisy_text : text) (e : E) : text * E :=
  match chars with
  | [] => (noisy_text, e)
  | char :: rest =>
      if isalpha char then
        let '(r, e1) := random_random e in
        if Qltb r (1 # 100) then
          let '(c, e2) :=
            choice (if isupper char then ascii_uppercase else ascii_lowercase) e1 in
          add_noise_loop rest (noisy_text ++ [c]) e2
        else add_noise_loop rest (noisy_text ++ [char]) e1
      else add_noise_loop rest (noisy_text ++ [char]) e
  end.

(** Lines 95-119: the prompt of turn [j] and its [modifications_applied]. *)
Definition perturb_turn (randomize_prompt add_noise : bool) (random_prefix : text)
    (j : nat) (prompt_text : text) (e : E) : (text * bool) * E :=
  let modified_prompt := prompt_text in
  let modifications_applied := false in
  let '(modified_prompt, modifications_applied) :=
    if randomize_prompt && (j =? 0)%nat
    then (random_prefix ++ modified_prompt, true)
    else (modified_prompt, modifications_applied) in
  if add_noise then
    let '(noisy_text, e') := add_noise_loop modified_prompt [] e in
    if negb (text_eqb noisy_text modified_prompt)
    then ((noisy_text, true), e')
    else ((modified_prompt, modifications_applied), e')
  else ((modified_prompt, modifications_applied), e).

(** A model request, recorded in the trace with its reply. *)
Definition request (conv : Conversation.t) (temperature : option Q) (max_tokens : Z)
    (f : E -> Result (text * Z) * E) : M (text * Z) :=
  fun w => let '(r, e') := f (env w) in
           (r, {| env := e'; files := files w;
                  trace := trace w ++ [EvRequest conv temperature max_tokens r] |}).

(** The variables live across the iterations of the loop over turns. *)
Record TurnState := {
  ts_conv : Conversation.t;
  ts_turns : list text;
  ts_total_num_tokens : Z;
  ts_modified_question : option Question.t
}.

(** The variables live across the iterations of the loop over choices.
    [as_modified_question] is [None] while the local name is unbound. *)
Record AnswerState := {
  as_choices : list Choice.t;
  as_total_num_tokens : Z;
  as_modified_question : option (option Question.t)
}.

(** Lines 129-137: the request of one turn. *)
Definition call_model (model : Model) (api_dict : option ApiDict.t) (stream : bool)
    (conv : Conversation.t) (temperature : option Q) (max_tokens : Z) : M (text * Z) :=
  match api_dict with
  | Some _ =>
      request conv temperature max_tokens
        (chat_completion_openai model conv temperature max_tokens api_dict stream)
  | None =>
      match api_function model with
      | None => raise AssertionError
      | Some f => request conv temperature max_tokens
                    (f conv temperature max_tokens api_dict)
      end
  end.

(** Lines 60-69: the sampling temperature. *)
Definition resolve_temperature (question : Question.t) (force_temperature : option Q)
    : M (option Q) :=
  do! assert_ (negb (is_not_None force_temperature
                     && is_not_None (Question.required_temperature question))) in
  match force_temperature with
  | Some _ => let! a := global_args in ret (Args.force_temperature a)
  | None =>
      match Question.required_temperature question with
      | Some t => ret (Some t)
      | None => ret (Some 0%Q)
      end
  end.

(** Lines 94-141: one iteration of the loop over turns. *)
Definition turn_body (question : Question.t) (model : Model) (max_tokens : Z)
    (api_dict : option ApiDict.t) (stream : bool) (temperature : option Q)
    (randomize_prompt add_noise : bool) (random_prefix : text)
    (j : nat) (st : TurnState) : M TurnState :=
  let! prompt_text := getitem (Question.turns question) j in
  let! (modified_prompt, modifications_applied) :=
    from_env (perturb_turn randomize_prompt add_noise random_prefix j prompt_text) in
  let modified_question :=
    match ts_modified_question st with
    | Some mq =>
        if modifications_applied
        then Some (Question.set_turns mq (<[j := modified_prompt]> (Question.turns mq)))
        else Some mq
    | None => None
    end in
  let conv := ts_conv st in
  let conv := Conversation.append_message conv (fst (Conversation.roles conv))
                (Some modified_prompt) in
  let conv := Conversation.append_message conv (snd (Conversation.roles conv)) None in
  let! (output, num_tokens) :=
    call_model model api_dict stream conv temperature max_tokens in
  let conv := Conversation.update_last_message conv output in
  ret {| ts_conv := conv;
         ts_turns := ts_turns st ++ [output];
         ts_total_num_tokens := ts_total_num_tokens st + num_tokens;
         ts_modified_question := modified_question |}.

(** Lines 84-143: one iteration of the loop over choices. *)
Definition choice_body (question : Question.t) (model : Model) (max_tokens : Z)
    (api_dict : option ApiDict.t) (stream : bool) (temperature : option Q)
    (randomize_prompt add_noise : bool) (random_prefix : text)
    (i : Z) (st : AnswerState) : M AnswerState :=
  let conv := get_default_conv_template (adapter model) (api_name model) in
  let modified_question :=
    if randomize_prompt || add_noise
    then Some (Question.set_turns question (Question.turns question))
    else None in
  let! ts :=
    for_each (seq 0 (length (Question.turns question)))
      (turn_body question model max_tokens api_dict stream temperature
         randomize_prompt add_noise random_prefix)
      {| ts_conv := conv; ts_turns := [];
         ts_total_num_tokens := as_total_num_tokens st;
         ts_modified_question := modified_question |} in
  ret {| as_choices := as_choices st ++ [Choice.mk i (ts_turns ts)];
         as_total_num_tokens := ts_total_num_tokens ts;
         as_modified_question := Some (ts_modified_question ts) |}.

(** The path of the modification log (lines 162 and 211). *)
Definition questions_file_of (answer_file : text) : text :=
  replace answer_file (str ".jsonl") (str "_QUESTIONS.jsonlx").

Definition get_answer (question : Question.t) (model : Model) (num_choices : Z)
    (max_tokens : Z) (answer_file : text) (api_dict : option ApiDict.t)
    (stream : bool) (force_temperature : option Q)
    (randomize_prompt add_noise : bool) : M unit :=
  do! emit (EvGetAnswer question) in
  let! temperature := resolve_temperature question force_temperature in
  let! random_prefix :=
    if randomize_prompt then from_env make_random_prefix else ret [] in
  let! st :=
    for_each (range num_choices)
      (choice_body question model max_tokens api_dict stream temperature
         randomize_prompt add_noise random_prefix)
      {| as_choices := []; as_total_num_tokens := 0; as_modified_question := None |} in
  let! answer_id := from_env shortuuid_uuid in
  let! tstamp := from_env time_time in
  let ans :=
    {| Answer.question_id := Question.question_id question;
       Answer.answer_id := answer_id;
       Answer.model_id := display_name model;
       Answer.choices := as_choices st;
       Answer.tstamp := tstamp;
       Answer.total_output_tokens := as_total_num_tokens st |} in
  do! os_makedirs (os_path_dirname answer_file) in
  do! append_line answer_file (AnswerLine ans) in
  let! modified_question :=
    match as_modified_question st with
    | Some v => ret v
    | None => raise (UnboundLocalError (str "modified_question"))
    end in
  match modified_question with
  | Some mq =>
      let questions_file := questions_file_of answer_file in
      let! tstamp := from_env time_time in
      append_line questions_file
        (ModificationLine
           {| Modification.question_id := Question.question_id question;
              Modification.model_id := display_name model;
              Modification.original_turns := Question.turns question;
              Modification.modified_turns := Question.turns mq;
              Modification.randomize_prompt_applied := randomize_prompt;
              Modification.add_noise_applied := add_noise;
              Modification.random_prefix := if randomize_prompt then random_prefix else [];
              Modification.tstamp := tstamp |})
  | None => ret tt
  end.

(** ** [run_questions] *)

(** Run a computation and hand back its outcome instead of raising: what a
    future keeps until [future.result()] is called. *)
Definition attempt {A} (c : M A) : M (Result A) :=
  fun w => let '(r, w') := c w in (Ok r, w').

Fixpoint first_failure (rs : list (Result unit)) : M unit :=
  match rs with
  | [] => ret tt
  | Ok _ :: rs' => first_failure rs'
  | Raise e :: _ => raise e
  end.

Fixpoint run_tasks (tasks : list (M unit)) (order : list nat) : M (list (Result unit)) :=
  match order with
  | [] => ret []
  | k :: order' =>
      let! r := attempt (nth k tasks (ret tt)) in
      let! rs := run_tasks tasks order' in
      ret (r :: rs)
  end.

(** Lines 238-259: the [with ThreadPoolExecutor(...)] block.  Threads are
    modelled at the granularity of one submitted call: the pool runs the
    calls one after another, in the completion order the environment picks.
    Every submitted call runs (leaving the [with] block waits for the pool);
    [future.result()] re-raises the first failure in completion order. *)
Definition thread_pool (max_workers : Z) (tasks : list (M unit)) : M unit :=
  if max_workers <=? 0
  then raise (ValueError (str "max_workers must be greater than 0"))
  else
    let! order := from_env (as_completed (length tasks)) in
    let! results := run_tasks tasks order in
    first_failure results.

(** Lines 210-218: the modification log is emptied at the start of a run
    that randomizes, unless the run resumes or retries. *)
Definition init_questions_file (answer_file : text) (randomize_prompt : bool) : M unit :=
  if randomize_prompt then
    let questions_file := questions_file_of answer_file in
    do! os_makedirs (os_path_dirname questions_file) in
    let! a := global_args in
    if negb (Args.resume a) && negb (Args.retry_failures a)
    then truncate questions_file
    else ret tt
  else ret tt.

Definition run_questions (parallel : Z) (questions : list Question.t) (model : Model)
    (num_choices : Z) (max_tokens : Z) (answer_file : text)
    (api_dict : option ApiDict.t) (stream : bool) (force_temperature : option Q)
    (randomize_prompt add_noise : bool) : M unit :=
  do! init_questions_file answer_file randomize_prompt in
  if parallel =? 1 then
    do! for_each questions
          (fun question _ =>
             get_answer question model num_choices max_tokens answer_file api_dict
               stream force_temperature randomize_prompt add_noise) tt in
    if (0 <? length questions)%nat then call_reorg_answer_file answer_file else ret tt
  else
    do! thread_pool parallel
          (List.map
             (fun question =>
                get_answer question model num_choices max_tokens answer_file api_dict
                  stream force_temperature randomize_prompt add_noise) questions) in
    if (0 <? length questions)%nat then call_reorg_answer_file answer_file else ret tt.

End Program.

Arguments Model E : clear implicits.
Arguments World E : clear implicits.
Arguments M E A : clear implicits.
Arguments Imports E : clear implicits.

(** ** The script around [run_questions] *)

(** Python's [<=] on strings: lexicographic on the code points, a proper
    prefix first. *)
Fixpoint text_leb (a b : text) : bool :=
  match a, b with
  | [], _ => true
  | _ :: _, [] => false
  | x :: a', y :: b' =>
      if (x <? y)%N then true
      else if (x =? y)%N then text_leb a' b'
      else false
  end.

(** Lines 372-373: the release must be a known one.  [releases] is
    [LIVE_BENCH_RELEASES], a constant of [livebench.common]. *)
Definition check_release (releases : gset text) (release_option : text) : Result unit :=
  if decide (release_option ∈ releases) then Ok tt
  else Raise (ValueError (str "Bad release " ++ release_option ++ str ".")).

(** Lines 375-377: the releases up to the chosen one. *)
Definition release_set (releases : gset text) (release_option : text) : gset text :=
  filter (fun r => text_leb r release_option = true) releases.

(** A bound of a slice with step 1, as CPython adjusts it to a list of
    length [len]: a negative index counts from the end, then it is clamped
    to [0, len]. *)
Definition slice_bound (len : Z) (bound : option Z) (default : Z) : Z :=
  match bound with
  | None => default
  | Some i =>
      let i := if i <? 0 then i + len else i in
      if i <? 0 then 0 else if len <=? i then len else i
  end.

(** Lines 404 and 452: [questions[begin:end]], either bound possibly [None]. *)
Definition py_slice {A} (xs : list A) (begin_ end_ : option Z) : list A :=
  let len := Z.of_nat (length xs) in
  let start := slice_bound len begin_ 0 in
  let stop := slice_bound len end_ len in
  take (Z.to_nat (stop - start)) (drop (Z.to_nat start) xs).

(** Lines 406-411: the answer file of a task of the remote dataset.
    [super_path] is [LIVE_BENCH_DATA_SUPER_PATH], a constant of
    [livebench.common]. *)
Definition answer_file_of_task (super_path category_name task_name display_name : text)
    : text :=
  let task_full_name := super_path ++ str "/" ++ category_name ++ str "/" ++ task_name in
  str "data/" ++ task_full_name ++ str "/model_answer/" ++ display_name ++ str ".jsonl".

(** Lines 454-455: the answer file that goes with a local question file. *)
Definition answer_file_of_question_file (question_file display_name : text) : text :=
  let bench_name := replace (os_path_dirname question_file) (str "data/") [] in
  str "data/" ++ bench_name ++ str "/model_answer/" ++ display_name ++ str ".jsonl".

(** ** Observations on traces *)

(** The user prompt of a conversation that is about to be sent: the message
    before the empty assistant slot. *)
Definition sent_prompt (conv : Conversation.t) : option text :=
  match rev (Conversation.messages conv) with
  | _ :: (_, p) :: _ => p
  | _ => None
  end.

Definition ev_prompt (ev : Event) : option text :=
  match ev with
  | EvRequest conv _ _ _ => sent_prompt conv
  | _ => None
  end.

Definition ev_temperature (ev : Event) : option (option Q) :=
  match ev with
  | EvRequest _ t _ _ => Some t
  | _ => None
  end.

Definition ev_output (ev : Event) : option text :=
  match ev with
  | EvRequest _ _ _ (Ok (output, _)) => Some output
  | _ => None
  end.

Definition ev_tokens (ev : Event) : Z :=
  match ev with
  | EvRequest _ _ _ (Ok (_, num_tokens)) => num_tokens
  | _ => 0
  end.

Definition is_request (ev : Event) : bool :=
  match ev with EvRequest _ _ _ _ => true | _ => false end.

Definition request_ok (ev : Event) : bool :=
  match ev with EvRequest _ _ _ (Ok _) => true | _ => false end.

Definition request_failed (ev : Event) : bool :=
  match ev with EvRequest _ _ _ (Raise _) => true | _ => false end.

(** The questions [get_answer] was entered with, in order. *)
Definition entered (evs : list Event) : list Question.t :=
  omap (fun ev => match ev with EvGetAnswer q => Some q | _ => None end) evs.

(** The answer records appended to [path], in order. *)
Definition answers_appended (path : text) (evs : list Event) : list Answer.t :=
  omap (fun ev => match ev with
                  | EvAppend p (AnswerLine a) => if text_eqb p path then Some a else None
                  | _ => None
                  end) evs.

(** The modification records appended, each with the path it went to. *)
Definition modifications_appended (evs : list Event) : list (text * Modification.t) :=
  omap (fun ev => match ev with
                  | EvAppend p (ModificationLine m) => Some (p, m)
                  | _ => None
                  end) evs.

(** The post-passes run, by path. *)
Definition reorgs (evs : list Event) : list text :=
  omap (fun ev => match ev with EvReorg p => Some p | _ => None end) evs.

(** The files emptied by [open(path, "w")], in order. *)
Definition truncations (evs : list Event) : list text :=
  omap (fun ev => match ev with EvTruncate p => Some p | _ => None end) evs.

(** [fs'] holds every file of [fs], each with its old lines first. *)
Definition extends (fs fs' : Files) : Prop :=
  forall p old, fs !! p = Some old -> exists new, fs' !! p = Some (old ++ new).

(** The events of one call of [get_answer] for [q]: the entry, then
    requests and appends only, among them at most one answer record, which
    is for [q]. *)
Definition call_events (answer_file : text) (q : Question.t) (seg : list Event) : Prop :=
  exists rest,
    seg = EvGetAnswer q :: rest
    /\ entered rest = [] /\ reorgs rest = [] /\ truncations rest = []
    /\ (length (answers_appended answer_file rest) <= 1)%nat
    /\ Forall (fun a => Answer.question_id a = Question.question_id q)
         (answers_appended answer_file rest).

(** The call whose events are [seg] wrote its answer record. *)
Definition answered (answer_file : text) (seg : list Event) : Prop :=
  length (answers_appended answer_file seg) = 1%nat.

(** [old] does not occur in [s] at any of the first [n] positions. *)
Definition no_match_before (s old : text) (n : nat) : bool :=
  forallb (fun k => negb (startswith (drop k s) old)) (seq 0 n).

(** [old] occurs somewhere in [s]. *)
Definition occurs (old s : text) : bool :=
  negb (no_match_before s old (length s)).

(** The post-pass rewrites only the file it is given. *)
Definition reorg_local {E} `{Imports E} : Prop :=
  forall (p : text) (fs : Files) (p' : text),
    p' <> p -> snd (reorg_answer_file p fs) !! p' = fs !! p'.

(** The model requests, in order. *)
Definition requests (evs : list Event) : list Event := List.filter is_request evs.


(** The modification records among the lines of a file. *)
Definition modification_lines (ls : list Line) : list Modification.t :=
  omap (fun l => match l with ModificationLine m => Some m | _ => None end) ls.

Definition sum_tokens (evs : list Event) : Z :=
  fold_right Z.add 0 (List.map ev_tokens evs).


(** ** Vocabulary of the statements *)

(** The text that enters the noise step: the prompt after randomization. *)
Definition randomized (randomize_prompt : bool) (random_prefix : text)
    (j : nat) (prompt_text : text) : text :=
  if randomize_prompt && (j =? 0)%nat then random_prefix ++ prompt_text else prompt_text.


(** The temperature in the words of the specification: the forced one if
    given, else the question's, else 0. *)
Definition specified_temperature (q : Question.t) (ft : option Q) : Q :=
  match ft with
  | Some t => t
  | None =>
      match Question.required_temperature q with
      | Some t => t
      | None => 0%Q
      end
  end.

(** The texts the answered requests returned, in order. *)
Definition outputs (evs : list Event) : list text := omap ev_output evs.

(** The user prompts the requests carried, in order. *)
Definition prompts (evs : list Event) : list text := omap ev_prompt evs.

(** The token limit a request carried. *)
Definition ev_max_tokens (ev : Event) : option Z :=
  match ev with
  | EvRequest _ _ max_tokens _ => Some max_tokens
  | _ => None
  end.

(** Every event a run of [c] adds to the trace satisfies [P], whatever the
    outcome of the run. *)
Definition emits {E A} (P : Event -> Prop) (c : M E A) : Prop :=
  forall (w : World E) (r : Result A) (w' : World E),
    c w = (r, w') -> exists evs, trace w' = trace w ++ evs /\ Forall P evs.

Section Vocabulary.

Context {E : Type} `{Environment E} `{PyStr} `{!Imports E}.
Variable args : option Args.t.

(** The request [ev] carries the prompt of turn [j], perturbed. *)
Definition turn_prompt (rp an : bool) (prefix : text) (q : Question.t)
    (ev : Event) (j : nat) : Prop :=
  exists t e, Question.turns q !! j = Some t
              /\ ev_prompt ev = Some (fst (fst (perturb_turn rp an prefix j t e))).

(** The requests of one choice: one per turn, in order, all answered. *)
Definition choice_trace (q : Question.t) (temperature : option Q) (rp an : bool)
    (prefix : text) (c : list Event) : Prop :=
  Forall (fun ev => request_ok ev = true /\ ev_temperature ev = Some temperature) c
  /\ Forall2 (turn_prompt rp an prefix q) c (seq 0 (length (Question.turns q))).

(** The call is well configured: no forced temperature against a required
    one, and [args] in scope where the forced temperature is read. *)
Definition configured (q : Question.t) (ft : option Q) : bool :=
  match ft with
  | None => true
  | Some _ => is_not_None args && negb (is_not_None (Question.required_temperature q))
  end.

(** What a call of [get_answer] leaves behind once its answer is written. *)
Definition answer_written (q : Question.t) (model : Model E) (num_choices : Z)
    (answer_file : text) (ft : option Q) (rp an : bool)
    (w : World E) (r : Result unit) (w' : World E) : Prop :=
  exists temperature chunks ans tail,
    let prefix := if rp then fst (make_random_prefix (env w)) else [] in
    let fs1 := file_append (files w) answer_file (AnswerLine ans) in
    fst (resolve_temperature args q ft w) = Ok temperature
    /\ length chunks = length (range num_choices)
    /\ Forall (choice_trace q temperature rp an prefix) chunks
    /\ Answer.question_id ans = Question.question_id q
    /\ Answer.model_id ans = display_name model
    /\ Answer.choices ans
       = zip_with (fun i c => Choice.mk i (outputs c)) (range num_choices) chunks
    /\ Answer.total_output_tokens ans = sum_tokens (concat chunks)
    /\ os_path_dirname answer_file <> []
    /\ trace w' = trace w ++ EvGetAnswer q :: concat chunks
                          ++ EvAppend answer_file (AnswerLine ans) :: tail
    /\ match last chunks with
       | None =>
           r = Raise (UnboundLocalError (str "modified_question"))
           /\ tail = [] /\ files w' = fs1
       | Some c =>
           r = Ok tt
           /\ if rp || an then
                exists m,
                  tail = [EvAppend (questions_file_of answer_file) (ModificationLine m)]
                  /\ files w' = file_append fs1 (questions_file_of answer_file)
                                  (ModificationLine m)
                  /\ Modification.question_id m = Question.question_id q
                  /\ Modification.model_id m = display_name model
                  /\ Modification.original_turns m = Question.turns q
                  /\ Modification.modified_turns m = prompts c
                  /\ Modification.randomize_prompt_applied m = rp
                  /\ Modification.add_noise_applied m = an
                  /\ Modification.random_prefix m = prefix
              else tail = [] /\ files w' = fs1
       end.

(** Whether a run empties the modification log at its start:
    [randomize_prompt] set, neither [resume] nor [retry_failures]. *)
Definition truncates (rp : bool) : bool :=
  rp && match args with
        | Some a => negb (Args.resume a) && negb (Args.retry_failures a)
        | None => false
        end.

(** The run as a whole: the events of the start ([pre]), of the calls
    ([segs], for the questions [picked]) and of the post-pass ([post]);
    [fs0] and [fs1] are the files after the start and after the calls. *)
Definition batch_shape (answer_file : text) (rp : bool) (parallel : Z)
    (qs : list Question.t) (w : World E) (r : Result unit) (w' : World E)
    (pre : list Event) (segs : list (list Event)) (picked : list Question.t)
    (post : list Event) (fs0 fs1 : Files) : Prop :=
  trace w' = trace w ++ pre ++ concat segs ++ post
  /\ ((pre = [] /\ fs0 = files w)
      \/ (truncates rp = true /\ pre = [EvTruncate (questions_file_of answer_file)]
          /\ fs0 = <[questions_file_of answer_file := []]> (files w)))
  /\ Forall2 (fun seg q => call_events answer_file q seg) segs picked
  /\ (parallel = 1 -> picked = take (length segs) qs)
  /\ (parallel <> 1 -> segs = [] \/ Permutation picked qs)
  /\ extends fs0 fs1 /\ (segs = [] -> fs1 = fs0)
  /\ ((post = [] /\ files w' = fs1)
      \/ (post = [EvReorg answer_file] /\ qs <> []
          /\ Forall (answered answer_file) segs /\ Permutation picked qs
          /\ (parallel = 1 -> picked = qs)
          /\ files w' = snd (reorg_answer_file answer_file fs1)))
  /\ (r = Ok tt ->
      Forall (answered answer_file) segs /\ Permutation picked qs
      /\ (parallel = 1 -> picked = qs)
      /\ (qs <> [] -> post = [EvReorg answer_file]))
  /\ (qs = [] -> segs = [] /\ post = []).

End Vocabulary.

(** ** A concrete world for examples *)

Module Scenario.

(** An environment read off tapes: the draws of [random.random()], the
    indices of [random.choice], the replies of the model API; a fixed clock
    and identifier; a pool that completes in submission or reverse order. *)
Record Tape := {
  draws : list Q;
  picks : list nat;
  replies : list (Result (text * Z));
  now : text;
  clock : Q;
  uuid : text;
  reversed : bool
}.

Definition tape_random_choice (n : nat) (e : Tape) : nat * Tape :=
  match picks e with
  | k :: ks => ((k mod n)%nat,
                {| draws := draws e; picks := ks; replies := replies e; now := now e;
                   clock := clock e; uuid := uuid e; reversed := reversed e |})
  | [] => (O, e)
  end.

Definition tape_random_random (e : Tape) : Q * Tape :=
  match draws e with
  | r :: rs => (r, {| draws := rs; picks := picks e; replies := replies e; now := now e;
                      clock := clock e; uuid := uuid e; reversed := reversed e |})
  | [] => (1 # 2, e)
  end.

Definition tape_as_completed (n : nat) (e : Tape) : list nat * Tape :=
  (if reversed e then rev (seq 0 n) else seq 0 n, e).

(** A model API that answers from the tape of replies. *)
Definition scripted (e : Tape) : Result (text * Z) * Tape :=
  match replies e with
  | r :: rs => (r, {| draws := draws e; picks := picks e; replies := rs; now := now e;
                      clock := clock e; uuid := uuid e; reversed := reversed e |})
  | [] => (Ok ([], 0), e)
  end.

(** The ASCII fragment of the Unicode tables. *)
Definition ascii_isupper (c : char) : bool := (65 <=? c)%N && (c <=? 90)%N.
Definition ascii_isalpha (c : char) : bool :=
  ascii_isupper c || ((97 <=? c)%N && (c <=? 122)%N).

Definition template : Conversation.t :=
  {| Conversation.roles := (str "user", str "assistant"); Conversation.messages := [] |}.

Definition tape0 : Tape :=
  {| draws := []; picks := []; replies := []; now := str "2025-01-02 03:04:05";
     clock := 1700000000 # 1; uuid := str "a1B2c3"; reversed := false |}.

Definition q1 : Question.t :=
  {| Question.question_id := str "q1"; Question.turns := [str "2+2?"];
     Question.required_temperature := None |}.

Definition q2 : Question.t :=
  {| Question.question_id := str "q2"; Question.turns := [str "Hi"; str "12:30?"];
     Question.required_temperature := Some (7 # 10) |}.

Definition q3 : Question.t :=
  {| Question.question_id := str "q3"; Question.turns := [str "ab"];
     Question.required_temperature := None |}.

(** One draw below the threshold, then draws above it, and one pick of
    index 3: the first letter met is replaced, nothing after it changes. *)
Definition tape_one_typo : Tape :=
  {| draws := [0 # 1]; picks := [3%nat]; replies := []; now := str "2025-01-02 03:04:05";
     clock := 1700000000 # 1; uuid := str "a1B2c3"; reversed := false |}.

Definition answer_file : text := str "data/live_bench/math/model_answer/m.jsonl".

(** The same environment with a pool that completes in reverse order. *)
Definition tape_reversed : Tape :=
  {| draws := []; picks := []; replies := []; now := str "2025-01-02 03:04:05";
     clock := 1700000000 # 1; uuid := str "a1B2c3"; reversed := true |}.

(** The namespace of a fresh run: no forced temperature, no resume, no retry. *)
Definition cli_fresh : Args.t :=
  {| Args.force_temperature := None; Args.resume := false; Args.retry_failures := false |}.

(** The namespace of a resumed run. *)
Definition cli_resume : Args.t :=
  {| Args.force_temperature := None; Args.resume := true; Args.retry_failures := false |}.

(** A record left in the modification log by an earlier run. *)
Definition old_record : Modification.t :=
  {| Modification.question_id := str "q0"; Modification.model_id := str "m";
     Modification.original_turns := [str "Hi"];
     Modification.modified_turns :=
       [str "Hello b2c3, 2024-12-31 23:59:59" ++ [10%N; 10%N] ++ str "Hi"];
     Modification.randomize_prompt_applied := true;
     Modification.add_noise_applied := false;
     Modification.random_prefix := str "Hello b2c3, 2024-12-31 23:59:59" ++ [10%N; 10%N];
     Modification.tstamp := 1690000000 # 1 |}.

#[global] Instance tape_environment : Environment Tape.
Proof.
  refine {| random_choice := tape_random_choice;
            random_random := tape_random_random;
            datetime_now := fun e => (now e, e);
            time_time := fun e => (clock e, e);
            shortuuid_uuid := fun e => (uuid e, e);
            as_completed := tape_as_completed |}.
  - intros n e Hn. unfold tape_random_choice.
    destruct (picks e) as [|k ks]; simpl; [exact Hn|].
    apply Nat.mod_upper_bound. lia.
  - intros n e. unfold tape_as_completed. destruct (reversed e); simpl.
    + symmetry. apply Permutation_rev.
    + reflexivity.
Defined.

#[global] Instance ascii_pystr : PyStr := {|
  isalpha := ascii_isalpha;
  isupper := ascii_isupper
|}.

(** The post-pass of the examples leaves the files alone. *)
#[global] Instance tape_imports : Imports Tape := {|
  chat_completion_openai := fun _ _ _ _ _ _ => scripted;
  reorg_answer_file := fun _ fs => (Ok tt, fs)
|}.

(** A model whose API always answers ["4"] with one token. *)
Definition model_four : Model Tape :=
  {| api_name := str "stub"; display_name := str "m";
     adapter := {| get_default_conv_template := fun _ => template |};
     api_function := Some (fun _ _ _ _ e => (Ok (str "4", 1), e)) |}.

(** A model whose API echoes the prompt it was sent. *)
Definition model_echo : Model Tape :=
  {| api_name := str "stub"; display_name := str "m";
     adapter := {| get_default_conv_template := fun _ => template |};
     api_function :=
       Some (fun conv _ _ _ e => (Ok (default [] (sent_prompt conv), 1), e)) |}.

(** A model whose API answers from the tape. *)
Definition model_scripted : Model Tape :=
  {| api_name := str "stub"; display_name := str "m";
     adapter := {| get_default_conv_template := fun _ => template |};
     api_function := Some (fun _ _ _ _ => scripted) |}.

(** A model without an API function of its own. *)
Definition model_offline : Model Tape :=
  {| api_name := str "stub"; display_name := str "m";
     adapter := {| get_default_conv_template := fun _ => template |};
     api_function := None |}.

(** A question without turns. *)
Definition q_empty : Question.t :=
  {| Question.question_id := str "q0"; Question.turns := [];
     Question.required_temperature := None |}.

Definition world0 (e : Tape) : World Tape :=
  {| env := e; files := ∅; trace := [] |}.

(** A world whose modification log holds the record of the earlier run. *)
Definition world_logged : World Tape :=
  {| env := tape0;
     files := {[ questions_file_of answer_file := [ModificationLine old_record] ]};
     trace := [] |}.

End Scenario.


(** ** Facts about the string helpers and the perturbation *)

Section Perturbation.

Context {E : Type} `{Environment E} `{PyStr}.







Lemma perturb_turn_eq (rp an : bool) (prefix : text) (j : nat) (t : text) (e : E) :
  perturb_turn rp an prefix j t e
  = if an then
      let '(noisy_text, e') := add_noise_loop (randomized rp prefix j t) [] e in
      ((noisy_text,
        (rp && (j =? 0)%nat) || negb (text_eqb noisy_text (randomized rp prefix j t))), e')
    else ((randomized rp prefix j t, rp && (j =? 0)%nat), e).
Proof.
  unfold perturb_turn, randomized.
  destruct (rp && (j =? 0)%nat) eqn:Hr; destruct an; try done.
  - destruct (add_noise_loop _ [] e) as [noisy e'].
    unfold text_eqb. case_bool_decide; simpl; [by subst | done].
  - destruct (add_noise_loop _ [] e) as [noisy e'].
    unfold text_eqb. case_bool_decide; simpl; [by subst | done].
Qed.

(** When [modifications_applied] stays false the prompt is the original. *)
Lemma perturb_turn_unflagged (rp an : bool) (prefix : text) (j : nat) (t : text)
    (e e' : E) (p : text) :
  perturb_turn rp an prefix j t e = ((p, false), e') -> p = t.
Proof.
  rewrite perturb_turn_eq. unfold randomized.
  destruct an.
  - destruct (add_noise_loop _ [] e) as [noisy e1]. intros [= -> Hf ->].
    apply orb_false_iff in Hf as [Hr Hn]. rewrite Hr in *.
    apply negb_false_iff in Hn. unfold text_eqb in Hn.
    by apply bool_decide_eq_true in Hn.
  - intros [= <- Hr _]. by rewrite Hr.
Qed.

End Perturbation.

(** ** How the loops of [get_answer] run *)

Section Runs.

Context {E : Type} `{Environment E} `{PyStr} `{!Imports E}.
Variable args : option Args.t.

Lemma bind_inv {A B} (c : M E A) (k : A -> M E B) (w w' : World E) (r : Result B) :
  bind c k w = (r, w') ->
  (exists a w1, c w = (Ok a, w1) /\ k a w1 = (r, w'))
  \/ (exists e, c w = (Raise e, w') /\ r = Raise e).
Proof.
  unfold bind. destruct (c w) as [[a|e] w1]; intros Hk.
  - left. eauto.
  - right. injection Hk as <- <-. eauto.
Qed.

Lemma sent_prompt_appended (conv : Conversation.t) (user assistant : text) (p : text) :
  sent_prompt
    (Conversation.append_message
       (Conversation.append_message conv user (Some p)) assistant None) = Some p.
Proof.
  unfold sent_prompt. simpl. rewrite <- app_assoc. simpl.
  by rewrite rev_app_distr.
Qed.

Lemma call_model_run model api_dict stream conv temperature max_tokens w r w' :
  call_model model api_dict stream conv temperature max_tokens w = (r, w') ->
  files w' = files w
  /\ ((r = Raise AssertionError /\ trace w' = trace w)
      \/ trace w' = trace w ++ [EvRequest conv temperature max_tokens r]).
Proof.
  unfold call_model, request, raise.
  destruct api_dict as [d|].
  - destruct (chat_completion_openai _ _ _ _ _ _ _) as [r0 e']. intros [= <- <-]. simpl. auto.
  - destruct (api_function model) as [f|].
    + destruct (f _ _ _ _ _) as [r0 e']. intros [= <- <-]. simpl. auto.
    + intros [= <- <-]. auto.
Qed.

Lemma turn_body_run q model max_tokens api_dict stream temperature rp an prefix j st w r w' :
  turn_body q model max_tokens api_dict stream temperature rp an prefix j st w = (r, w') ->
  files w' = files w
  /\ ((exists e, r = Raise e /\ trace w' = trace w)
      \/ exists t p flag e1 conv reply,
           Question.turns q !! j = Some t
           /\ perturb_turn rp an prefix j t (env w) = ((p, flag), e1)
           /\ sent_prompt conv = Some p
           /\ trace w' = trace w ++ [EvRequest conv temperature max_tokens reply]
           /\ match reply with
              | Raise e => r = Raise e
              | Ok (output, num_tokens) =>
                  r = Ok {| ts_conv := Conversation.update_last_message conv output;
                            ts_turns := ts_turns st ++ [output];
                            ts_total_num_tokens := ts_total_num_tokens st + num_tokens;
                            ts_modified_question :=
                              match ts_modified_question st with
                              | Some mq =>
                                  if flag
                                  then Some (Question.set_turns mq
                                               (<[j := p]> (Question.turns mq)))
                                  else Some mq
                              | None => None
                              end |}
              end).
Proof.
  unfold turn_body. intros Hrun.
  apply bind_inv in Hrun as [(t & w1 & Hget & Hrun) | (e & Hget & ->)]; cycle 1.
  { unfold getitem in Hget. destruct (_ !! j); [discriminate|].
    injection Hget as _ <-. split; [done|]. left. eauto. }
  unfold getitem in Hget. destruct (Question.turns q !! j) as [t'|] eqn:Hj; [|discriminate].
  injection Hget as -> <-.
  apply bind_inv in Hrun as [([p flag] & w2 & Hper & Hrun) | (e & Hper & _)]; cycle 1.
  { unfold from_env in Hper. destruct (perturb_turn _ _ _ _ _ _); discriminate. }
  unfold from_env in Hper.
  destruct (perturb_turn rp an prefix j t (env w)) as [[p' flag'] e1] eqn:Hp.
  injection Hper as -> -> <-.
  apply bind_inv in Hrun as [([output num_tokens] & w3 & Hcall & Hrun) | (e & Hcall & ->)].
  - apply call_model_run in Hcall as [Hf [[? _] | Htr]]; [discriminate|].
    injection Hrun as <- <-. simpl in *. split; [done|]. right.
    eexists t, p, flag, e1, _, (Ok (output, num_tokens)).
    split; [done|]. split; [done|]. split; [apply sent_prompt_appended|].
    split; [exact Htr|]. done.
  - apply call_model_run in Hcall as [Hf [[_ Htr] | Htr]]; simpl in *.
    + split; [done|]. left. eauto.
    + split; [done|]. right.
      eexists t, p, flag, e1, _, (Raise e).
      split; [done|]. split; [done|]. split; [apply sent_prompt_appended|].
      split; [exact Htr|]. done.
Qed.

Lemma sum_tokens_app (xs ys : list Event) :
  sum_tokens (xs ++ ys) = sum_tokens xs + sum_tokens ys.
Proof.
  unfold sum_tokens. induction xs as [|x xs IH]; simpl; [done|]. rewrite IH. lia.
Qed.

Lemma turn_loop_run q model max_tokens api_dict stream temperature rp an prefix
    n a st w r w' :
  for_each (seq a n)
    (turn_body q model max_tokens api_dict stream temperature rp an prefix) st w
  = (r, w') ->
  files w' = files w
  /\ exists evs,
       trace w' = trace w ++ evs
       /\ Forall (fun ev => is_request ev = true) evs
       /\ match r with
          | Raise _ => True
          | Ok st' =>
              Forall (fun ev => request_ok ev = true
                                /\ ev_temperature ev = Some temperature) evs
              /\ Forall2 (turn_prompt rp an prefix q) evs (seq a n)
              /\ ts_turns st' = ts_turns st ++ outputs evs
              /\ ts_total_num_tokens st' = ts_total_num_tokens st + sum_tokens evs
          end.
Proof.
  revert a st w. induction n as [|n IH]; intros a st w Hrun; simpl in Hrun.
  - injection Hrun as <- <-. split; [done|]. exists []. rewrite !app_nil_r.
    repeat split; try constructor. unfold sum_tokens. simpl. lia.
  - apply bind_inv in Hrun as [(st1 & w1 & Hbody & Hrun) | (e & Hbody & ->)].
    + apply turn_body_run in Hbody as [Hf1 [(e & ? & _) | Hstep]]; [discriminate|].
      destruct Hstep as (t & p & flag & e1 & conv & reply & Hj & Hper & Hsent & Htr1 & Hr).
      destruct reply as [[output num_tokens]|e]; [|discriminate].
      injection Hr as ->.
      apply IH in Hrun as [Hf2 (evs & Htr2 & Hreq & Hok)].
      split; [congruence|].
      exists (EvRequest conv temperature max_tokens (Ok (output, num_tokens)) :: evs).
      split; [rewrite Htr2, Htr1, <- app_assoc; done|].
      split; [by constructor|].
      destruct r as [st'|e]; [|done].
      destruct Hok as (Hall & Hprompts & Hturns & Htotal). simpl in *.
      split; [by constructor|].
      split.
      { constructor; [|done]. exists t, (env w). rewrite Hper. simpl. done. }
      split.
      { rewrite Hturns, <- app_assoc. done. }
      rewrite Htotal. unfold sum_tokens. simpl. lia.
    + apply turn_body_run in Hbody as [Hf1 [(e' & _ & Htr) | Hstep]].
      * split; [done|]. exists []. rewrite app_nil_r. auto.
      * destruct Hstep as (t & p & flag & e1 & conv & reply & _ & _ & _ & Htr1 & _).
        split; [done|]. eexists [_]. split; [exact Htr1|]. split; [|done].
        by constructor.
Qed.

Lemma set_turns_set_turns (mq : Question.t) (l1 l2 : list text) :
  Question.set_turns (Question.set_turns mq l1) l2 = Question.set_turns mq l2.
Proof. done. Qed.

Lemma set_turns_id (mq : Question.t) : Question.set_turns mq (Question.turns mq) = mq.
Proof. by destruct mq. Qed.

(** The modified copy ends up holding, at each processed turn, the prompt
    that was sent for it. *)
Lemma turn_loop_modified q model max_tokens api_dict stream temperature rp an prefix
    n a st w st' w' mq :
  for_each (seq a n)
    (turn_body q model max_tokens api_dict stream temperature rp an prefix) st w
  = (Ok st', w') ->
  ts_modified_question st = Some mq ->
  drop a (Question.turns mq) = drop a (Question.turns q) ->
  exists evs,
    trace w' = trace w ++ evs
    /\ ts_modified_question st'
       = Some (Question.set_turns mq
                 (take a (Question.turns mq) ++ prompts evs
                  ++ drop (a + n) (Question.turns mq))).
Proof.
  revert a st w mq. induction n as [|n IH]; intros a st w mq Hrun Hmq Hdrop; simpl in Hrun.
  - injection Hrun as <- <-. exists []. rewrite app_nil_r. split; [done|].
    rewrite Hmq. simpl. rewrite Nat.add_0_r, take_drop, set_turns_id. done.
  - apply bind_inv in Hrun as [(st1 & w1 & Hbody & Hrun) | (e & _ & ?)]; [|discriminate].
    apply turn_body_run in Hbody as [_ [(e & ? & _) | Hstep]]; [discriminate|].
    destruct Hstep as (t & p & flag & e1 & conv & reply & Hj & Hper & Hsent & Htr1 & Hr).
    destruct reply as [[output num_tokens]|e]; [|discriminate].
    injection Hr as ->. rewrite Hmq in Hrun.
    assert (Hl : Question.turns mq !! a = Some t).
    { rewrite <- (Nat.add_0_r a), <- lookup_drop, Hdrop, lookup_drop, Nat.add_0_r. done. }
    set (l1 := <[a := p]> (Question.turns mq)).
    assert (Hst1 : (if flag then Some (Question.set_turns mq l1) else Some mq)
                   = Some (Question.set_turns mq l1)).
    { destruct flag; [done|].
      apply perturb_turn_unflagged in Hper as ->.
      unfold l1. rewrite list_insert_id by done. by rewrite set_turns_id. }
    fold l1 in Hrun. rewrite Hst1 in Hrun.
    eapply (IH (S a) _ _ (Question.set_turns mq l1)) in Hrun as (evs & Htr2 & Hres);
      [|done|].
    + exists (EvRequest conv temperature max_tokens (Ok (output, num_tokens)) :: evs).
      split; [rewrite Htr2, Htr1, <- app_assoc; done|].
      rewrite Hres, set_turns_set_turns. simpl. f_equal. f_equal.
      unfold prompts at 2. simpl. rewrite Hsent. fold (prompts evs).
      assert (Hlt : (a < length (Question.turns mq))%nat) by (by eapply lookup_lt_Some).
      unfold l1.
      rewrite (take_S_r _ _ p) by (by rewrite list_lookup_insert_eq).
      rewrite take_insert_ge by lia.
      rewrite drop_insert_lt by lia.
      rewrite <- app_assoc. simpl. replace (a + S n)%nat with (S (a + n)) by lia. done.
    + simpl. unfold l1. rewrite drop_insert_lt by lia.
      replace (S a) with (a + 1)%nat by lia.
      rewrite <- !drop_drop. by rewrite Hdrop.
Qed.

Lemma turn_loop_unmodified q model max_tokens api_dict stream temperature rp an prefix
    n a st w st' w' :
  for_each (seq a n)
    (turn_body q model max_tokens api_dict stream temperature rp an prefix) st w
  = (Ok st', w') ->
  ts_modified_question st = None ->
  ts_modified_question st' = None.
Proof.
  revert a st w. induction n as [|n IH]; intros a st w Hrun Hmq; simpl in Hrun.
  - by injection Hrun as <- <-.
  - apply bind_inv in Hrun as [(st1 & w1 & Hbody & Hrun) | (e & _ & ?)]; [|discriminate].
    apply turn_body_run in Hbody as [_ [(e & ? & _) | Hstep]]; [discriminate|].
    destruct Hstep as (t & p & flag & e1 & conv & reply & _ & _ & _ & _ & Hr).
    destruct reply as [[output num_tokens]|e]; [|discriminate].
    injection Hr as ->. apply IH in Hrun; [done|]. simpl. by rewrite Hmq.
Qed.

Lemma choice_body_run q model max_tokens api_dict stream temperature rp an prefix
    i st w r w' :
  choice_body q model max_tokens api_dict stream temperature rp an prefix i st w
  = (r, w') ->
  files w' = files w
  /\ exists evs,
       trace w' = trace w ++ evs
       /\ Forall (fun ev => is_request ev = true) evs
       /\ match r with
          | Raise _ => True
          | Ok st' =>
              choice_trace q temperature rp an prefix evs
              /\ as_choices st' = as_choices st ++ [Choice.mk i (outputs evs)]
              /\ as_total_num_tokens st' = as_total_num_tokens st + sum_tokens evs
              /\ as_modified_question st'
                 = Some (if rp || an
                         then Some (Question.set_turns q (prompts evs))
                         else None)
          end.
Proof.
  unfold choice_body. intros Hrun.
  apply bind_inv in Hrun as [(ts & w1 & Hloop & Hrun) | (e & Hloop & ->)].
  - injection Hrun as <- <-.
    pose proof Hloop as Hloop'.
    apply turn_loop_run in Hloop as [Hf (evs & Htr & Hreq & Hall & Hprompts & Hturns & Htotal)].
    split; [done|]. exists evs. split; [done|]. split; [done|]. simpl in *.
    split; [by split|]. split; [by rewrite Hturns|]. split; [done|].
    f_equal. destruct (rp || an).
    + eapply turn_loop_modified in Hloop' as (evs' & Htr' & ->); [|done|done].
      rewrite Htr in Htr'. apply app_inv_head in Htr' as <-. simpl.
      rewrite drop_all, app_nil_r. done.
    + eapply turn_loop_unmodified in Hloop' as ->; done.
  - apply turn_loop_run in Hloop as [Hf (evs & Htr & Hreq & _)].
    split; [done|]. by exists evs.
Qed.

Lemma choices_loop_run q model max_tokens api_dict stream temperature rp an prefix
    (indices : list Z) st w r w' :
  for_each indices
    (choice_body q model max_tokens api_dict stream temperature rp an prefix) st w
  = (r, w') ->
  files w' = files w
  /\ exists evs,
       trace w' = trace w ++ evs
       /\ Forall (fun ev => is_request ev = true) evs
       /\ match r with
          | Raise _ => True
          | Ok st' =>
              exists chunks,
                evs = concat chunks
                /\ length chunks = length indices
                /\ Forall (choice_trace q temperature rp an prefix) chunks
                /\ as_choices st'
                   = as_choices st
                     ++ zip_with (fun i c => Choice.mk i (outputs c)) indices chunks
                /\ as_total_num_tokens st' = as_total_num_tokens st + sum_tokens evs
                /\ as_modified_question st'
                   = match last chunks with
                     | None => as_modified_question st
                     | Some c =>
                         Some (if rp || an
                               then Some (Question.set_turns q (prompts c))
                               else None)
                     end
          end.
Proof.
  revert st w. induction indices as [|i indices IH]; intros st w Hrun; simpl in Hrun.
  - injection Hrun as <- <-. split; [done|]. exists []. rewrite !app_nil_r.
    split; [done|]. split; [done|]. exists []. simpl. rewrite app_nil_r.
    repeat split; try done. unfold sum_tokens. simpl. lia.
  - apply bind_inv in Hrun as [(st1 & w1 & Hbody & Hrun) | (e & Hbody & ->)].
    + apply choice_body_run in Hbody
        as [Hf1 (evs1 & Htr1 & Hreq1 & Hc & Hchoices1 & Htotal1 & Hmq1)].
      apply IH in Hrun as [Hf2 (evs2 & Htr2 & Hreq2 & Hok)].
      split; [congruence|]. exists (evs1 ++ evs2).
      split; [rewrite Htr2, Htr1, <- app_assoc; done|].
      split; [by apply Forall_app|].
      destruct r as [st'|e]; [|done].
      destruct Hok as (chunks & -> & Hlen & Hall & Hchoices & Htotal & Hmq).
      exists (evs1 :: chunks). simpl.
      split; [done|]. split; [by rewrite Hlen|]. split; [by constructor|].
      split; [rewrite Hchoices, Hchoices1, <- app_assoc; done|].
      split; [rewrite Htotal, Htotal1, sum_tokens_app; lia|].
      rewrite Hmq, last_cons. destruct (last chunks); [done|]. by rewrite Hmq1.
    + apply choice_body_run in Hbody as [Hf1 (evs1 & Htr1 & Hreq1 & _)].
      split; [done|]. by exists evs1.
Qed.

Lemma resolve_temperature_run q ft (w : World E) :
  snd (resolve_temperature args q ft w) = w
  /\ forall w0 : World E,
       fst (resolve_temperature args q ft w0) = fst (resolve_temperature args q ft w).
Proof.
  unfold resolve_temperature, assert_, global_args, bind, ret, raise.
  destruct ft as [t|], (Question.required_temperature q) as [t'|], args as [a|];
    simpl; done.
Qed.

Lemma get_answer_run q model num_choices max_tokens answer_file api_dict stream ft rp an
    w r w' :
  get_answer args q model num_choices max_tokens answer_file api_dict stream ft rp an w
  = (r, w') ->
  (exists e reqs,
     r = Raise e /\ files w' = files w
     /\ trace w' = trace w ++ EvGetAnswer q :: reqs
     /\ Forall (fun ev => is_request ev = true) reqs)
  \/ answer_written args q model num_choices answer_file ft rp an w r w'.
Proof.
  unfold get_answer. intros Hrun.
  apply bind_inv in Hrun as [([] & w0 & Hemit & Hrun) | (e & Hemit & _)];
    [|discriminate].
  injection Hemit as <-.
  apply bind_inv in Hrun as [(temperature & w1 & Hres & Hrun) | (e & Hres & ->)]; cycle 1.
  { left. exists e, [].
    pose proof (resolve_temperature_run q ft
                  {| env := env w; files := files w; trace := trace w ++ [EvGetAnswer q] |})
      as [Hw _].
    rewrite Hres in Hw. simpl in Hw. subst w'. simpl. auto. }
  pose proof (resolve_temperature_run q ft
                {| env := env w; files := files w; trace := trace w ++ [EvGetAnswer q] |})
    as [Hw Hindep].
  rewrite Hres in Hw. simpl in Hw. subst w1.
  assert (Htemp : fst (resolve_temperature args q ft w) = Ok temperature).
  { rewrite (Hindep w), Hres. done. }
  clear Hres Hindep.
  set (prefix := if rp then fst (make_random_prefix (env w)) else []).
  apply bind_inv in Hrun as [(prefix' & w2 & Hpre & Hrun) | (e & Hpre & _)]; cycle 1.
  { destruct rp; [|discriminate]. unfold from_env in Hpre.
    destruct (make_random_prefix _); discriminate. }
  assert (Hw2 : prefix' = prefix /\ files w2 = files w
                /\ trace w2 = trace w ++ [EvGetAnswer q]).
  { unfold prefix. destruct rp.
    - unfold from_env in Hpre. simpl in Hpre.
      destruct (make_random_prefix (env w)) as [x e']. by injection Hpre as <- <-.
    - by injection Hpre as <- <-. }
  destruct Hw2 as (-> & Hf2 & Htr2). clear Hpre.
  apply bind_inv in Hrun as [(st & w3 & Hloop & Hrun) | (e & Hloop & ->)]; cycle 1.
  { apply choices_loop_run in Hloop as [Hf (evs & Htr & Hreq & _)].
    left. exists e, evs. split; [done|]. split; [congruence|].
    split; [|done]. rewrite Htr, Htr2, <- app_assoc. done. }
  apply choices_loop_run in Hloop
    as [Hf3 (evs & Htr3 & Hreq & chunks & -> & Hlen & Hall & Hchoices & Htotal & Hmq)].
  simpl in Hchoices, Htotal, Hmq.
  apply bind_inv in Hrun as [(answer_id & w4 & Hid & Hrun) | (e & Hid & _)]; cycle 1.
  { unfold from_env in Hid. destruct (shortuuid_uuid _); discriminate. }
  unfold from_env in Hid. destruct (shortuuid_uuid (env w3)) as [x e4].
  injection Hid as -> <-.
  apply bind_inv in Hrun as [(tstamp & w5 & Htime & Hrun) | (e & Htime & _)]; cycle 1.
  { unfold from_env in Htime. destruct (time_time _); discriminate. }
  unfold from_env in Htime. simpl in Htime. destruct (time_time e4) as [x e5].
  injection Htime as -> <-.
  apply bind_inv in Hrun as [([] & w6 & Hdir & Hrun) | (e & Hdir & ->)]; cycle 1.
  { left. exists e, (concat chunks). unfold os_makedirs in Hdir.
    destruct (os_path_dirname answer_file); [|discriminate].
    injection Hdir as _ <-. simpl. split; [done|]. split; [congruence|].
    split; [|done]. rewrite Htr3, Htr2, <- app_assoc. done. }
  assert (Hdirname : os_path_dirname answer_file <> []).
  { unfold os_makedirs in Hdir. destruct (os_path_dirname answer_file); [discriminate|done]. }
  assert (w6 = {| env := e5; files := files w3; trace := trace w3 |}) as ->.
  { unfold os_makedirs in Hdir. destruct (os_path_dirname answer_file); [discriminate|].
    by injection Hdir as <-. }
  clear Hdir.
  apply bind_inv in Hrun as [([] & w7 & Happ & Hrun) | (e & Happ & _)];
    [|discriminate].
  injection Happ as <-.
  right.
  match type of Hrun with
  | context [AnswerLine ?a] => set (ans := a) in *
  end.
  exists temperature, chunks, ans.
  destruct (as_modified_question st) as [mqv|] eqn:Hst.
  - simpl in Hrun. destruct (last chunks) as [c|] eqn:Hlast; [|discriminate].
    injection Hmq as ->.
    destruct (rp || an) eqn:Hflags.
    + unfold bind, from_env in Hrun. simpl in Hrun.
      destruct (time_time e5) as [tstamp' e6].
      unfold append_line in Hrun. simpl in Hrun. injection Hrun as <- <-.
      eexists [_]. simpl.
      split; [done|]. split; [done|]. split; [done|]. split; [done|]. split; [done|].
      split; [by rewrite Hchoices|]. split; [by rewrite Htotal; lia|]. split; [done|].
      split.
      { rewrite Htr3, Htr2. repeat (rewrite <- app_assoc; simpl). done. }
      split; [done|]. eexists. split; [done|]. simpl.
      split; [by rewrite Hf3, Hf2|].
      repeat split; try done. unfold prefix. by destruct rp.
    + injection Hrun as <- <-. exists []. simpl.
      split; [done|]. split; [done|]. split; [done|]. split; [done|]. split; [done|].
      split; [by rewrite Hchoices|]. split; [by rewrite Htotal; lia|]. split; [done|].
      split.
      { rewrite Htr3, Htr2. repeat (rewrite <- app_assoc; simpl). done. }
      split; [done|]. split; [done|]. by rewrite Hf3, Hf2.
  - simpl in Hrun. injection Hrun as <- <-.
    destruct (last chunks) as [c|] eqn:Hlast; [discriminate|].
    exists []. simpl.
    split; [done|]. split; [done|]. split; [done|]. split; [done|]. split; [done|].
    split; [by rewrite Hchoices|]. split; [by rewrite Htotal; lia|]. split; [done|].
    split.
    { rewrite Htr3, Htr2. repeat (rewrite <- app_assoc; simpl). done. }
    split; [done|]. split; [done|]. by rewrite Hf3, Hf2.
Qed.

(** *** Runs in which every request is answered *)

Section Answered.

Variables (q : Question.t) (model : Model E) (max_tokens : Z)
  (api_dict : option ApiDict.t) (stream : bool).

Hypothesis replies :
  forall conv temperature max_tokens' (w : World E),
    is_ok (fst (call_model model api_dict stream conv temperature max_tokens' w)) = true.

Lemma turn_body_returns temperature rp an prefix j st (w : World E) :
  (j < length (Question.turns q))%nat ->
  is_ok (fst (turn_body q model max_tokens api_dict stream temperature rp an prefix
                j st w)) = true.
Proof.
  intros Hj. unfold turn_body, bind, getitem.
  destruct (lookup_lt_is_Some_2 _ _ Hj) as [t ->]. simpl.
  unfold from_env. destruct (perturb_turn _ _ _ _ _ _) as [[p flag] e1].
  match goal with
  | |- context [call_model ?m ?a ?s ?c ?t ?mt ?w0] =>
      pose proof (replies c t mt w0) as Hr;
      destruct (call_model m a s c t mt w0) as [[[output num_tokens]|e] w1]
  end; [done | discriminate].
Qed.

Lemma turn_loop_returns temperature rp an prefix n a st (w : World E) :
  (a + n <= length (Question.turns q))%nat ->
  is_ok (fst (for_each (seq a n)
                (turn_body q model max_tokens api_dict stream temperature rp an prefix)
                st w)) = true.
Proof.
  revert a st w. induction n as [|n IH]; intros a st w Hn; simpl; [done|].
  unfold bind.
  pose proof (turn_body_returns temperature rp an prefix a st w ltac:(lia)) as Hb.
  destruct (turn_body _ _ _ _ _ _ _ _ _ _ _ _) as [[st1|e] w1]; [|discriminate].
  apply IH. lia.
Qed.

Lemma choices_loop_returns temperature rp an prefix (indices : list Z) st (w : World E) :
  is_ok (fst (for_each indices
                (choice_body q model max_tokens api_dict stream temperature rp an prefix)
                st w)) = true.
Proof.
  revert st w. induction indices as [|i indices IH]; intros st w; simpl; [done|].
  unfold bind at 1. unfold choice_body at 1. unfold bind at 1.
  match goal with
  | |- context [for_each (seq 0 ?n) ?body ?s ?w0] =>
      pose proof (turn_loop_returns temperature rp an prefix n 0 s w0 ltac:(lia)) as Hl;
      destruct (for_each (seq 0 n) body s w0) as [[ts|e] w1]
  end; [|discriminate].
  simpl. apply IH.
Qed.

End Answered.


(** *** Reading a trace *)

Lemma requests_silent (reqs : list Event) (path : text) :
  Forall (fun ev => is_request ev = true) reqs ->
  entered reqs = [] /\ answers_appended path reqs = []
  /\ modifications_appended reqs = [] /\ reorgs reqs = []
  /\ truncations reqs = [].
Proof.
  induction 1 as [|ev reqs Hev _ (IH1 & IH2 & IH3 & IH4 & IH5)]; [done|].
  destruct ev; try discriminate. simpl.
  unfold entered, answers_appended, modifications_appended, reorgs, truncations in *.
  simpl. done.
Qed.

Lemma choice_trace_requests q temperature rp an prefix (chunks : list (list Event)) :
  Forall (choice_trace q temperature rp an prefix) chunks ->
  Forall (fun ev => request_ok ev = true) (concat chunks).
Proof.
  induction 1 as [|c chunks [Hc _] _ IH]; simpl; [constructor|].
  apply Forall_app. split; [|done].
  eapply Forall_impl; [exact Hc|]. by intros ev [? _].
Qed.

Lemma request_ok_is_request (evs : list Event) :
  Forall (fun ev => request_ok ev = true) evs ->
  Forall (fun ev => is_request ev = true) evs.
Proof. intros Hok. eapply Forall_impl; [exact Hok|]. intros [] ?; done. Qed.





Lemma file_append_lookup (fs : Files) (path : text) (l : Line) :
  file_append fs path l !! path = Some (default [] (fs !! path) ++ [l]).
Proof. unfold file_append. apply lookup_insert_eq. Qed.

Lemma file_append_lookup_ne (fs : Files) (path path' : text) (l : Line) :
  path <> path' -> file_append fs path l !! path' = fs !! path'.
Proof. intros Hne. unfold file_append. by apply lookup_insert_ne. Qed.

Lemma entered_app (xs ys : list Event) : entered (xs ++ ys) = entered xs ++ entered ys.
Proof. apply omap_app. Qed.

Lemma answers_appended_app (path : text) (xs ys : list Event) :
  answers_appended path (xs ++ ys)
  = answers_appended path xs ++ answers_appended path ys.
Proof. apply omap_app. Qed.

Lemma modifications_appended_app (xs ys : list Event) :
  modifications_appended (xs ++ ys)
  = modifications_appended xs ++ modifications_appended ys.
Proof. apply omap_app. Qed.

Lemma reorgs_app (xs ys : list Event) : reorgs (xs ++ ys) = reorgs xs ++ reorgs ys.
Proof. apply omap_app. Qed.

Lemma answers_appended_answer (path : text) (a : Answer.t) :
  answers_appended path [EvAppend path (AnswerLine a)] = [a].
Proof.
  unfold answers_appended. simpl. unfold text_eqb.
  by rewrite bool_decide_eq_true_2.
Qed.

Lemma cons_as_app {A} (x : A) (l : list A) : x :: l = [x] ++ l.
Proof. done. Qed.

Lemma requests_app (xs ys : list Event) : requests (xs ++ ys) = requests xs ++ requests ys.
Proof. apply List.filter_app. Qed.

Lemma requests_all (reqs : list Event) :
  Forall (fun ev => is_request ev = true) reqs -> requests reqs = reqs.
Proof.
  induction 1 as [|ev reqs Hev _ IH]; [done|].
  unfold requests in *. simpl. by rewrite Hev, IH.
Qed.

(** The shape of a normal return, read off [answer_written]. *)
Lemma get_answer_ok_run q model num_choices max_tokens answer_file api_dict stream ft rp an
    (w w' : World E) :
  get_answer args q model num_choices max_tokens answer_file api_dict stream ft rp an w
  = (Ok tt, w') ->
  exists temperature chunks c ans tail,
    let prefix := if rp then fst (make_random_prefix (env w)) else [] in
    trace w' = trace w ++ [EvGetAnswer q] ++ concat chunks
                       ++ [EvAppend answer_file (AnswerLine ans)] ++ tail
    /\ fst (resolve_temperature args q ft w) = Ok temperature
    /\ length chunks = Z.to_nat num_choices
    /\ last chunks = Some c
    /\ Forall (choice_trace q temperature rp an prefix) chunks
    /\ if rp || an then
         exists m,
           tail = [EvAppend (questions_file_of answer_file) (ModificationLine m)]
           /\ Modification.original_turns m = Question.turns q
           /\ Modification.modified_turns m = prompts c
           /\ Modification.randomize_prompt_applied m = rp
           /\ Modification.add_noise_applied m = an
           /\ Modification.random_prefix m = prefix
       else tail = [].
Proof.
  intros Hrun.
  apply get_answer_run in Hrun as [(e & reqs & ? & _) | Hw]; [discriminate|].
  destruct Hw as (temperature & chunks & ans & tail & Htemp & Hlen & Hall & _ & _
                  & _ & _ & _ & Htr & Hlast).
  destruct (last chunks) as [c|] eqn:Hl; [|by destruct Hlast].
  destruct Hlast as [_ Hlast].
  exists temperature, chunks, c, ans, tail. simpl.
  split; [done|]. split; [done|].
  split; [rewrite Hlen; unfold range; by rewrite length_map, length_seq|].
  split; [done|]. split; [done|].
  destruct (rp || an).
  - destruct Hlast as (m & -> & _ & _ & _ & ? & ? & ? & ? & ?). exists m. done.
  - by destruct Hlast.
Qed.

Lemma get_answer_ok_requests q temperature rp an prefix
    (chunks : list (list Event)) (ans : Answer.t) (answer_file : text)
    (tail : list Event) :
  Forall (choice_trace q temperature rp an prefix) chunks ->
  (tail = [] \/ exists p m, tail = [EvAppend p (ModificationLine m)]) ->
  requests ([EvGetAnswer q] ++ concat chunks
            ++ [EvAppend answer_file (AnswerLine ans)] ++ tail) = concat chunks
  /\ modifications_appended ([EvGetAnswer q] ++ concat chunks
                             ++ [EvAppend answer_file (AnswerLine ans)] ++ tail)
     = modifications_appended tail.
Proof.
  intros Hall Htail.
  pose proof (request_ok_is_request _ (choice_trace_requests _ _ _ _ _ _ Hall)) as Hreq.
  rewrite !requests_app, !modifications_appended_app, (requests_all _ Hreq).
  destruct (requests_silent _ answer_file Hreq) as (_ & _ & -> & _).
  split; [|done].
  destruct Htail as [-> | (p & m & ->)]; simpl; by rewrite app_nil_r.
Qed.


(** The prompts of one choice, from the per-turn relation. *)
Lemma turn_prompts_imap (f : nat -> text -> text) (l : list text) (c : list Event)
    (a : nat) :
  Forall2 (fun ev j => exists t, l !! j = Some t /\ ev_prompt ev = Some (f j t))
    c (seq a (length l - a)) ->
  prompts c = imap (fun k t => f (a + k)%nat t) (drop a l).
Proof.
  remember (length l - a)%nat as n eqn:Hn. revert a c Hn.
  induction n as [|n IH]; intros a c Hn Hc; simpl in Hc.
  - apply Forall2_nil_inv_r in Hc as ->. rewrite drop_ge by lia. done.
  - apply Forall2_cons_inv_r in Hc as (ev & c' & (t & Ht & Hev) & Hc' & ->).
    rewrite (drop_S _ _ _ Ht). simpl. unfold prompts at 1. simpl. rewrite Hev.
    fold (prompts c'). rewrite Nat.add_0_r. f_equal.
    rewrite (IH (S a) c') by (done || lia).
    apply imap_ext. intros k x _. simpl. f_equal. lia.
Qed.

End Runs.

(** ** The answer record *)



(** ** A request that raises *)

Lemma concat_length_uniform {A} (n : nat) (chunks : list (list A)) :
  Forall (fun c => length c = n) chunks ->
  length (concat chunks) = (length chunks * n)%nat.
Proof.
  induction 1 as [|c chunks Hc _ IH]; simpl; [done|].
  rewrite length_app, IH, Hc. done.
Qed.

(** C6. If any model request made by [get_answer] raises, the call raises and
    writes nothing: the files are as before and no answer record is
    appended.  Conversely an answer record is appended only after all
    [num_choices * len(turns)] requests were made and answered, and no
    request follows it. *)
Theorem get_answer_no_partial_record {E} `{Environment E} `{PyStr} `{!Imports E}
    (args : option Args.t) (q : Question.t) (model : Model E)
    (num_choices max_tokens : Z) (answer_file : text) (api_dict : option ApiDict.t)
    (stream : bool) (ft : option Q) (rp an : bool) (w w' : World E)
    (r : Result unit) (evs : list Event) :
  get_answer args q model num_choices max_tokens answer_file api_dict stream ft rp an w
  = (r, w') ->
  trace w' = trace w ++ evs ->
  (Exists (fun ev => request_failed ev = true) evs ->
   files w' = files w /\ is_ok r = false /\ answers_appended answer_file evs = [])
  /\ (forall ans, In (EvAppend answer_file (AnswerLine ans)) evs ->
      exists reqs tail,
        evs = EvGetAnswer q :: reqs ++ EvAppend answer_file (AnswerLine ans) :: tail
        /\ Forall (fun ev => request_ok ev = true) reqs
        /\ length reqs = (Z.to_nat num_choices * length (Question.turns q))%nat
        /\ Forall (fun ev => is_request ev = false) tail).
Proof.
  intros Hrun Htr.
  apply get_answer_run in Hrun as [(e & reqs & -> & Hf & Htr' & Hreq) | Hw].
  - rewrite Htr in Htr'. apply app_inv_head in Htr' as ->. split.
    + intros _. split; [done|]. split; [done|].
      rewrite cons_as_app, answers_appended_app.
      by destruct (requests_silent _ answer_file Hreq) as (_ & -> & _).
    + intros ans [Hin|Hin]; [discriminate|]. exfalso.
      rewrite List.Forall_forall in Hreq. apply Hreq in Hin. discriminate.
  - destruct Hw as (temperature & chunks & ans & tail & _ & Hlen & Hall & _ & _
                    & _ & _ & _ & Htr' & Hlast).
    rewrite Htr in Htr'. apply app_inv_head in Htr' as ->.
    pose proof (choice_trace_requests _ _ _ _ _ _ Hall) as Hok.
    assert (Htail : tail = []
                    \/ exists m, tail = [EvAppend (questions_file_of answer_file)
                                           (ModificationLine m)]).
    { destruct (last chunks) as [c|]; [|left; by destruct Hlast as (_ & -> & _)].
      destruct Hlast as [_ Hlast]. destruct (rp || an).
      - destruct Hlast as (m & -> & _). right. eauto.
      - left. by destruct Hlast. }
    assert (Htail' : Forall (fun ev => is_request ev = false) tail).
    { destruct Htail as [-> | [m ->]]; repeat constructor. }
    split.
    + intros Hex. exfalso. apply List.Exists_exists in Hex as (ev & Hin & Hev).
      destruct Hin as [<-|Hin]; [discriminate|].
      apply in_app_or in Hin as [Hin|[<-|Hin]]; [|discriminate|].
      * rewrite List.Forall_forall in Hok. apply Hok in Hin.
        destruct ev as [| ? ? ? []| | |]; discriminate.
      * rewrite List.Forall_forall in Htail'. apply Htail' in Hin.
        destruct ev; discriminate.
    + intros ans' Hin.
      assert (ans' = ans) as ->.
      { destruct Hin as [Hin|Hin]; [discriminate|].
        apply in_app_or in Hin as [Hin|[Hin|Hin]].
        - rewrite List.Forall_forall in Hok. apply Hok in Hin. discriminate.
        - by injection Hin.
        - destruct Htail as [-> | [m ->]]; [done|].
          destruct Hin as [Hin|[]]. discriminate. }
      exists (concat chunks), tail. split; [done|]. split; [done|]. split; [|done].
      rewrite (concat_length_uniform (length (Question.turns q))).
      * rewrite Hlen. unfold range. by rewrite length_map, length_seq.
      * eapply Forall_impl; [exact Hall|]. intros c [_ Hc].
        apply Forall2_length in Hc. by rewrite length_seq in Hc.
Qed.

(** Two turns, the second request raises: nothing is written. *)
Lemma get_answer_no_partial_record_witness :
  let e := {| Scenario.draws := []; Scenario.picks := [];
              Scenario.replies := [Ok (str "hello", 2); Raise (ApiError (str "timeout"))];
              Scenario.now := []; Scenario.clock := 0; Scenario.uuid := [];
              Scenario.reversed := false |} in
  let run := get_answer None Scenario.q2 Scenario.model_scripted 1 4096
               Scenario.answer_file None false None false false (Scenario.world0 e) in
  fst run = Raise (ApiError (str "timeout"))
  /\ files (snd run) = files (Scenario.world0 e)
  /\ answers_appended Scenario.answer_file (trace (snd run)) = [].
Proof.
  intros e run.
  destruct (get_answer_no_partial_record None Scenario.q2 Scenario.model_scripted 1 4096
              Scenario.answer_file None false None false false (Scenario.world0 e)
              (snd run) (fst run) (trace (snd run))) as [Hfail _].
  - apply surjective_pairing.
  - reflexivity.
  - destruct Hfail as (Hfiles & _ & Hnone).
    + vm_compute. apply Exists_cons_tl, Exists_cons_tl, Exists_cons_hd. reflexivity.
    + split; [reflexivity|]. split; [exact Hfiles | exact Hnone].
Defined.

(** ** The modification record *)





(** Two choices of the one-turn question ["ab"] under noise: the first
    choice is sent ["db"], the second ["ab"]; the record keeps ["ab"], which
    is also the original turn. *)
Example modification_record_forgets_first_choice :
  let w' := snd (get_answer None Scenario.q3 Scenario.model_four 2 4096
                   Scenario.answer_file None false None false true
                   (Scenario.world0 Scenario.tape_one_typo)) in
  prompts (requests (trace w')) = [str "db"; str "ab"]
  /\ List.map (fun pm => Modification.modified_turns (snd pm))
       (modifications_appended (trace w')) = [[str "ab"]].
Proof. vm_compute. split; reflexivity. Qed.

(** C1, as the code has it.  A call of [get_answer] appends at most one
    modification record, always to the modification log of its answer file;
    it appends one exactly when it returns normally with [randomize_prompt]
    or [add_noise] set, whether or not any turn was changed. *)
Theorem modification_record_gate {E} `{Environment E} `{PyStr} `{!Imports E}
    (args : option Args.t) (q : Question.t) (model : Model E)
    (num_choices max_tokens : Z) (answer_file : text) (api_dict : option ApiDict.t)
    (stream : bool) (ft : option Q) (rp an : bool) (w w' : World E)
    (r : Result unit) (evs : list Event) :
  get_answer args q model num_choices max_tokens answer_file api_dict stream ft rp an w
  = (r, w') ->
  trace w' = trace w ++ evs ->
  (length (modifications_appended evs) <= 1)%nat
  /\ (modifications_appended evs <> [] <-> r = Ok tt /\ rp || an = true)
  /\ (forall p m, In (p, m) (modifications_appended evs) ->
      p = questions_file_of answer_file
      /\ Modification.original_turns m = Question.turns q).
Proof.
  intros Hrun Htr.
  apply get_answer_run in Hrun as [(e & reqs & -> & _ & Htr' & Hreq) | Hw].
  - rewrite Htr in Htr'. apply app_inv_head in Htr' as ->.
    rewrite cons_as_app, modifications_appended_app.
    destruct (requests_silent _ answer_file Hreq) as (_ & _ & -> & _). simpl.
    split; [lia|]. split; [|by intros ? ? []].
    split; [done|]. by intros [? _].
  - destruct Hw as (temperature & chunks & ans & tail & _ & _ & Hall & _ & _
                    & _ & _ & _ & Htr' & Hlast).
    rewrite Htr in Htr'. apply app_inv_head in Htr' as ->.
    assert (Hmods : modifications_appended
                      (EvGetAnswer q :: concat chunks
                       ++ EvAppend answer_file (AnswerLine ans) :: tail)
                    = modifications_appended tail).
    { pose proof (request_ok_is_request _ (choice_trace_requests _ _ _ _ _ _ Hall)) as Hreq.
      rewrite cons_as_app, (cons_as_app _ tail), !modifications_appended_app.
      by destruct (requests_silent _ answer_file Hreq) as (_ & _ & -> & _). }
    rewrite Hmods. clear Hmods.
    destruct (last chunks) as [c|].
    + destruct Hlast as [-> Hlast]. destruct (rp || an).
      * destruct Hlast as (m & -> & _ & _ & _ & Horig & _). simpl.
        split; [lia|]. split; [done|].
        intros p m' [[= <- <-]|[]]. done.
      * destruct Hlast as [-> _]. simpl. split; [lia|].
        split; [|by intros ? ? []]. split; [done|]. by intros [_ ?].
    + destruct Hlast as (-> & -> & _). simpl. split; [lia|].
      split; [|by intros ? ? []]. split; [done|]. by intros [? _].
Qed.

Lemma modification_record_gate_witness :
  let run := get_answer None Scenario.q3 Scenario.model_four 1 4096 Scenario.answer_file
               None false None false true (Scenario.world0 Scenario.tape0) in
  (length (modifications_appended (trace (snd run))) <= 1)%nat
  /\ (modifications_appended (trace (snd run)) <> []
      <-> fst run = Ok tt /\ false || true = true)
  /\ (forall p m, In (p, m) (modifications_appended (trace (snd run))) ->
      p = questions_file_of Scenario.answer_file
      /\ Modification.original_turns m = Question.turns Scenario.q3).
Proof.
  intros run.
  apply (modification_record_gate None Scenario.q3 Scenario.model_four 1 4096
           Scenario.answer_file None false None false true
           (Scenario.world0 Scenario.tape0) (snd run) (fst run)).
  - apply surjective_pairing.
  - reflexivity.
Defined.

(** Noise that changes no character still leaves a modification record:
    the prompt sent is the original turn, and a record is appended whose
    [modified_turns] are the original turns. *)
Lemma modification_record_without_change :
  let w' := snd (get_answer None Scenario.q3 Scenario.model_four 1 4096
                   Scenario.answer_file None false None false true
                   (Scenario.world0 Scenario.tape0)) in
  prompts (requests (trace w')) = Question.turns Scenario.q3
  /\ exists m,
       modifications_appended (trace w') = [(questions_file_of Scenario.answer_file, m)]
       /\ files w' !! questions_file_of Scenario.answer_file = Some [ModificationLine m]
       /\ Modification.add_noise_applied m = true
       /\ Modification.modified_turns m = Modification.original_turns m.
Proof.
  vm_compute. split; [reflexivity|]. eexists. repeat split; reflexivity.
Qed.

(** ** Randomization and noise *)




(** The second end-to-end scenario: under [randomize_prompt] an echoing API
    returns a turn that starts with ["Hello "], and the record appended
    reports [randomize_prompt_applied]. *)
Example randomized_echo :
  let w' := snd (get_answer None Scenario.q1 Scenario.model_echo 1 4096
                   Scenario.answer_file None false None true false
                   (Scenario.world0 Scenario.tape0)) in
  outputs (trace w') = [str "Hello a1a1, 2025-01-02 03:04:05" ++ [10%N; 10%N] ++ str "2+2?"]
  /\ List.map (fun pm => Modification.randomize_prompt_applied (snd pm))
       (modifications_appended (trace w')) = [true].
Proof. vm_compute. split; reflexivity. Qed.



(** Noise on a concrete prompt: with the prefix in front, the first letter
    met is the [H] of ["Hello"], and it is the one replaced (by [A], the
    index-3 pick having gone to the prefix); the second turn ["12:30?"] has
    no letter and is sent as it is. *)
Example noise_hits_the_prefix :
  let w' := snd (get_answer None Scenario.q2 Scenario.model_four 1 4096
                   Scenario.answer_file None false None true true
                   (Scenario.world0 Scenario.tape_one_typo)) in
  prompts (requests (trace w'))
  = [str "Aello d1a1, 2025-01-02 03:04:05" ++ [10%N; 10%N] ++ str "Hi"; str "12:30?"].
Proof. vm_compute. reflexivity. Qed.

(** ** The sampling temperature *)

(** C2, where the code departs from it.  With a forced temperature and no
    required one, [get_answer] does not use its argument: it reads the
    module-level [args], and where that name is unbound (the function
    imported and called, as a test of the builder does) it raises
    [NameError] before any request is made. *)
Theorem forced_temperature_reads_args {E} `{Environment E} `{PyStr} `{!Imports E}
    (q : Question.t) (model : Model E)
    (num_choices max_tokens : Z) (answer_file : text) (api_dict : option ApiDict.t)
    (stream : bool) (t : Q) (rp an : bool) (w : World E) :
  Question.required_temperature q = None ->
  get_answer None q model num_choices max_tokens answer_file api_dict stream (Some t)
    rp an w
  = (Raise (NameError (str "args")),
     {| env := env w; files := files w; trace := trace w ++ [EvGetAnswer q] |}).
Proof.
  intros Hq. unfold get_answer, bind, emit, resolve_temperature, assert_, global_args,
    raise, ret. simpl. rewrite Hq. reflexivity.
Qed.

Lemma forced_temperature_reads_args_witness :
  get_answer None Scenario.q1 Scenario.model_four 1 4096 Scenario.answer_file None false
    (Some (7 # 10)) false false (Scenario.world0 Scenario.tape0)
  = (Raise (NameError (str "args")),
     {| env := Scenario.tape0; files := ∅; trace := [EvGetAnswer Scenario.q1] |}).
Proof.
  apply (forced_temperature_reads_args Scenario.q1 Scenario.model_four 1 4096
           Scenario.answer_file None false (7 # 10) false false
           (Scenario.world0 Scenario.tape0)).
  reflexivity.
Defined.

(** With [args] bound but holding another value than the argument, the
    requests go out with the value of [args]. *)
Example forced_temperature_ignored :
  let cli := {| Args.force_temperature := None; Args.resume := false;
                Args.retry_failures := false |} in
  let w' := snd (get_answer (Some cli) Scenario.q1 Scenario.model_four 1 4096
                   Scenario.answer_file None false (Some (7 # 10)) false false
                   (Scenario.world0 Scenario.tape0)) in
  List.map ev_temperature (requests (trace w')) = [Some None].
Proof. vm_compute. reflexivity. Qed.

(** Where [args.force_temperature] is the argument, as in every call the
    script itself makes, the temperature is resolved as specified: the call
    fails with [AssertionError], before any request, exactly on a forced
    temperature against a required one; otherwise every request carries the
    specified temperature. *)
Lemma temperature_as_specified {E} `{Environment E} `{PyStr} `{!Imports E}
    (cli : Args.t) (q : Question.t) (model : Model E)
    (num_choices max_tokens : Z) (answer_file : text) (api_dict : option ApiDict.t)
    (stream : bool) (ft : option Q) (rp an : bool) (w : World E) :
  Args.force_temperature cli = ft ->
  (is_not_None ft && is_not_None (Question.required_temperature q) = true ->
   get_answer (Some cli) q model num_choices max_tokens answer_file api_dict stream ft
     rp an w
   = (Raise AssertionError,
      {| env := env w; files := files w; trace := trace w ++ [EvGetAnswer q] |}))
  /\ (is_not_None ft && is_not_None (Question.required_temperature q) = false ->
      fst (resolve_temperature (Some cli) q ft w) = Ok (Some (specified_temperature q ft))
      /\ forall w' evs,
           get_answer (Some cli) q model num_choices max_tokens answer_file api_dict
             stream ft rp an w = (Ok tt, w') ->
           trace w' = trace w ++ evs ->
           Forall (fun ev => ev_temperature ev = Some (Some (specified_temperature q ft)))
             (requests evs)).
Proof.
  intros Hcli. split.
  - intros Hboth. unfold get_answer, bind, emit, resolve_temperature, assert_, raise.
    simpl. rewrite Hboth. reflexivity.
  - intros Hnot.
    assert (Hres : fst (resolve_temperature (Some cli) q ft w)
                   = Ok (Some (specified_temperature q ft))).
    { unfold resolve_temperature, assert_, global_args, bind, ret, raise,
        specified_temperature.
      rewrite Hnot. simpl. subst ft.
      destruct (Args.force_temperature cli) as [t|],
        (Question.required_temperature q) as [t'|]; simpl in *; done. }
    split; [exact Hres|].
    intros w' evs Hrun Htr.
    apply get_answer_ok_run in Hrun
      as (temperature & chunks & c & ans & tail & Htr' & Htemp & _ & _ & Hall & Htail).
    rewrite Htr in Htr'. apply app_inv_head in Htr' as ->.
    rewrite Hres in Htemp. injection Htemp as <-.
    destruct (get_answer_ok_requests q _ rp an _ chunks ans answer_file tail Hall)
      as [-> _].
    { destruct (rp || an); [|by left]. destruct Htail as (m & -> & _). right. eauto. }
    clear -Hall. induction Hall as [|c chunks [Hc _] _ IH]; simpl; [constructor|].
    apply Forall_app. split; [|done].
    eapply Forall_impl; [exact Hc|]. by intros ev [_ ?].
Qed.

(** ** How [run_questions] runs *)

Section Batch.

Context {E : Type} `{Environment E} `{PyStr} `{!Imports E}.
Variable args : option Args.t.

Lemma extends_refl (fs : Files) : extends fs fs.
Proof. intros p old Hp. exists []. by rewrite app_nil_r. Qed.

Lemma extends_trans (fs1 fs2 fs3 : Files) :
  extends fs1 fs2 -> extends fs2 fs3 -> extends fs1 fs3.
Proof.
  intros H12 H23 p old Hp.
  destruct (H12 p old Hp) as [new1 H2]. destruct (H23 p _ H2) as [new2 H3].
  exists (new1 ++ new2). by rewrite app_assoc.
Qed.

Lemma extends_file_append (fs : Files) (path : text) (l : Line) :
  extends fs (file_append fs path l).
Proof.
  intros p old Hp. destruct (decide (path = p)) as [->|Hne].
  - rewrite file_append_lookup, Hp. simpl. eauto.
  - rewrite file_append_lookup_ne by done. exists []. by rewrite app_nil_r.
Qed.

Lemma truncations_app (xs ys : list Event) :
  truncations (xs ++ ys) = truncations xs ++ truncations ys.
Proof. apply omap_app. Qed.

Lemma get_answer_events q model num_choices max_tokens answer_file api_dict stream ft
    rp an (w w' : World E) r :
  get_answer args q model num_choices max_tokens answer_file api_dict stream ft rp an w
  = (r, w') ->
  exists seg,
    trace w' = trace w ++ seg
    /\ call_events answer_file q seg
    /\ (r = Ok tt -> answered answer_file seg)
    /\ extends (files w) (files w').
Proof.
  intros Hrun.
  apply get_answer_run in Hrun as [(e & reqs & -> & Hf & Htr & Hreq) | Hw].
  - exists (EvGetAnswer q :: reqs). split; [done|].
    destruct (requests_silent _ answer_file Hreq) as (He & Ha & _ & Hr & Ht).
    split.
    { exists reqs. rewrite He, Ha, Hr, Ht. simpl. repeat split; try done. lia. }
    split; [discriminate|]. rewrite Hf. apply extends_refl.
  - destruct Hw as (temperature & chunks & ans & tail & _ & _ & Hall & Hqid & _
                    & _ & _ & _ & Htr & Hlast).
    pose proof (request_ok_is_request _ (choice_trace_requests _ _ _ _ _ _ Hall)) as Hreq.
    destruct (requests_silent _ answer_file Hreq) as (He & Ha & _ & Hr & Ht).
    assert (Htail : (tail = []
                     \/ exists m, tail = [EvAppend (questions_file_of answer_file)
                                            (ModificationLine m)])
                    /\ extends (files w) (files w')).
    { destruct (last chunks) as [c|].
      - destruct Hlast as [_ Hlast]. destruct (rp || an).
        + destruct Hlast as (m & -> & -> & _). split; [right; eauto|].
          eapply extends_trans; apply extends_file_append.
        + destruct Hlast as [-> ->]. split; [by left|]. apply extends_file_append.
      - destruct Hlast as (_ & -> & ->). split; [by left|]. apply extends_file_append. }
    destruct Htail as [Htail Hext].
    exists (EvGetAnswer q :: concat chunks ++ EvAppend answer_file (AnswerLine ans) :: tail).
    split; [done|].
    pose (rest := concat chunks ++ [EvAppend answer_file (AnswerLine ans)] ++ tail).
    assert (Hrest : entered rest = [] /\ reorgs rest = [] /\ truncations rest = []
                    /\ answers_appended answer_file rest = [ans]).
    { unfold rest.
      rewrite !entered_app, !reorgs_app, !truncations_app, !answers_appended_app,
        He, Ha, Hr, Ht, answers_appended_answer.
      destruct Htail as [-> | [m ->]]; done. }
    unfold rest in Hrest. clear rest.
    destruct Hrest as (He' & Hr' & Ht' & Ha').
    split.
    { eexists. split; [done|]. simpl in *. rewrite He', Hr', Ht', Ha'. simpl.
      repeat split; try done. by constructor. }
    split; [|done]. intros _. unfold answered.
    rewrite cons_as_app, answers_appended_app. simpl in *. by rewrite Ha'.
Qed.

Lemma segments_summary (answer_file : text) (segs : list (list Event))
    (qs : list Question.t) :
  Forall2 (fun seg q => call_events answer_file q seg) segs qs ->
  entered (concat segs) = qs
  /\ reorgs (concat segs) = []
  /\ truncations (concat segs) = []
  /\ (Forall (answered answer_file) segs ->
      List.map Answer.question_id (answers_appended answer_file (concat segs))
      = List.map Question.question_id qs).
Proof.
  induction 1 as [|seg q segs qs (rest & -> & He & Hr & Ht & Hlen & Hq) _
                   (IHe & IHr & IHt & IHa)]; [done|].
  simpl concat.
  rewrite cons_as_app, !entered_app, !reorgs_app, !truncations_app, He, Hr, Ht,
    IHe, IHr, IHt.
  repeat split; try done.
  intros Hall. apply Forall_cons in Hall as [Hseg Hall].
  rewrite !answers_appended_app, !map_app, (IHa Hall).
  unfold answered in Hseg. rewrite cons_as_app, answers_appended_app in Hseg.
  simpl in Hseg |- *.
  destruct (answers_appended answer_file rest) as [|a [|]]; try discriminate.
  apply Forall_inv in Hq. simpl. by rewrite Hq.
Qed.

Section Calls.

Variables (model : Model E) (num_choices max_tokens : Z) (answer_file : text)
  (api_dict : option ApiDict.t) (stream : bool) (ft : option Q) (rp an : bool).

Let call (question : Question.t) : M E unit :=
  get_answer args question model num_choices max_tokens answer_file api_dict stream
    ft rp an.

(** Lines 221-233: the questions one after another. *)
Lemma sequential_run (qs : list Question.t) (w w' : World E) (r : Result unit) :
  for_each qs (fun question _ => call question) tt w = (r, w') ->
  exists segs,
    trace w' = trace w ++ concat segs
    /\ Forall2 (fun seg q => call_events answer_file q seg) segs (take (length segs) qs)
    /\ (length segs <= length qs)%nat
    /\ (r = Ok tt -> length segs = length qs /\ Forall (answered answer_file) segs)
    /\ extends (files w) (files w')
    /\ (segs = [] -> files w' = files w).
Proof.
  revert w. induction qs as [|q qs IH]; intros w Hrun; simpl in Hrun.
  - injection Hrun as <- <-. exists []. simpl. rewrite app_nil_r.
    repeat split; try done. apply extends_refl.
  - apply bind_inv in Hrun as [([] & w1 & Hq & Hrun) | (e & Hq & ->)].
    + apply get_answer_events in Hq as (seg & Htr1 & Hseg & Hans & Hext1).
      apply IH in Hrun as (segs & Htr2 & Hsegs & Hlen & Hok & Hext2 & _).
      exists (seg :: segs). simpl.
      split; [rewrite Htr2, Htr1, <- app_assoc; done|].
      split; [by constructor|]. split; [lia|].
      split; [|split; [by eapply extends_trans|discriminate]].
      intros Hr. destruct (Hok Hr) as [Hl Hall].
      split; [by rewrite Hl|]. constructor; [by apply Hans|done].
    + apply get_answer_events in Hq as (seg & Htr1 & Hseg & _ & Hext1).
      exists [seg]. simpl. rewrite app_nil_r.
      split; [done|]. rewrite take_0. split; [by repeat constructor|].
      split; [lia|]. split; [discriminate|]. split; [done|discriminate].
Qed.

Lemma nth_map_call (qs : list Question.t) (k : nat) (q : Question.t) :
  qs !! k = Some q -> nth k (List.map call qs) (ret tt) = call q.
Proof.
  revert k. induction qs as [|q0 qs IH]; intros [|k] Hk; simpl in *; try done.
  - by injection Hk as ->.
  - by apply IH.
Qed.

(** Lines 240-254 and the wait of the [with] block: every submitted call
    runs, in the order of completion. *)
Lemma run_tasks_run (qs : list Question.t) (order : list nat) (w w' : World E)
    (r : Result (list (Result unit))) :
  Forall (fun k => (k < length qs)%nat) order ->
  run_tasks (List.map call qs) order w = (r, w') ->
  exists rs segs picked,
    r = Ok rs
    /\ trace w' = trace w ++ concat segs
    /\ Forall2 (fun k q => qs !! k = Some q) order picked
    /\ Forall2 (fun seg q => call_events answer_file q seg) segs picked
    /\ Forall2 (fun seg res => res = Ok tt -> answered answer_file seg) segs rs
    /\ extends (files w) (files w')
    /\ (segs = [] -> files w' = files w).
Proof.
  intros Horder. revert w r w'.
  induction Horder as [|k order Hk _ IH]; intros w r w' Hrun; simpl in Hrun.
  - injection Hrun as <- <-. exists [], [], []. simpl. rewrite app_nil_r.
    repeat split; try constructor. apply extends_refl.
  - destruct (lookup_lt_is_Some_2 _ _ Hk) as [q Hq].
    rewrite (nth_map_call _ _ _ Hq) in Hrun.
    unfold bind at 1, attempt in Hrun.
    destruct (call q w) as [res w1] eqn:Hcall.
    apply get_answer_events in Hcall as (seg & Htr1 & Hseg & Hans & Hext1).
    apply bind_inv in Hrun as [(rs & w2 & Hrest & Hrun) | (e & Hrest & ->)].
    + injection Hrun as <- <-.
      apply IH in Hrest
        as (rs' & segs & picked & [= ->] & Htr2 & Hpick & Hsegs & Hres & Hext2 & _).
      exists (res :: rs'), (seg :: segs), (q :: picked). simpl.
      split; [done|]. split; [rewrite Htr2, Htr1, <- app_assoc; done|].
      split; [by constructor|]. split; [by constructor|].
      split; [|split; [by eapply extends_trans|discriminate]].
      constructor; [|done]. intros ->. by apply Hans.
    + apply IH in Hrest as (rs' & _ & _ & ? & _). discriminate.
Qed.

Lemma first_failure_run (rs : list (Result unit)) (w w' : World E) (r : Result unit) :
  first_failure rs w = (r, w') ->
  w' = w /\ (r = Ok tt -> Forall (fun res => res = Ok tt) rs).
Proof.
  induction rs as [|[[]|e] rs IH]; simpl; intros Hrun.
  - injection Hrun as <- <-. by split.
  - destruct (IH Hrun) as [-> Hok]. split; [done|]. intros Hr. constructor; auto.
  - injection Hrun as <- <-. split; [done|discriminate].
Qed.

Lemma picked_permutation (qs picked : list Question.t) (order : list nat) :
  Permutation order (seq 0 (length qs)) ->
  Forall2 (fun k q => qs !! k = Some q) order picked ->
  Permutation picked qs.
Proof.
  intros Hperm Hpick.
  destruct qs as [|d qs'] eqn:Hqs.
  { simpl in Hperm. apply Permutation_nil_r in Hperm as ->.
    by apply Forall2_nil_inv_l in Hpick as ->. }
  rewrite <- Hqs in *. clear Hqs qs'.
  assert (Hpicked : picked = (fun k => nth k qs d) <$> order).
  { clear Hperm. induction Hpick as [|k q order picked Hk _ IH]; [done|].
    simpl. rewrite (nth_lookup_Some _ _ d _ Hk), IH. done. }
  assert (Hall : (fun k => nth k qs d) <$> seq 0 (length qs) = qs).
  { apply list_eq. intros i. rewrite list_lookup_fmap.
    destruct (decide (i < length qs)%nat) as [Hi|Hi].
    - rewrite lookup_seq_lt by done. simpl.
      destruct (lookup_lt_is_Some_2 _ _ Hi) as [q Hq].
      by rewrite (nth_lookup_Some _ _ d _ Hq).
    - rewrite lookup_seq_ge by lia. simpl. symmetry. apply lookup_ge_None. lia. }
  subst picked.
  transitivity ((fun k => nth k qs d) <$> seq 0 (length qs)).
  - by apply fmap_Permutation.
  - by rewrite Hall.
Qed.

Lemma thread_pool_run (parallel : Z) (qs : list Question.t) (w w' : World E)
    (r : Result unit) :
  thread_pool parallel (List.map call qs) w = (r, w') ->
  (parallel <= 0 /\ (exists e, r = Raise e) /\ w' = w)
  \/ (0 < parallel
      /\ exists segs picked,
           trace w' = trace w ++ concat segs
           /\ Permutation picked qs
           /\ Forall2 (fun seg q => call_events answer_file q seg) segs picked
           /\ (r = Ok tt -> Forall (answered answer_file) segs)
           /\ extends (files w) (files w')
           /\ (segs = [] -> files w' = files w)).
Proof.
  unfold thread_pool. destruct (parallel <=? 0) eqn:Hp.
  - intros [= <- <-]. left. split; [lia|]. split; [eauto|done].
  - intros Hrun. right. split; [lia|].
    apply bind_inv in Hrun as [(order & w1 & Horder & Hrun) | (e & Horder & _)]; cycle 1.
    { unfold from_env in Horder. destruct (as_completed _ _); discriminate. }
    unfold from_env in Horder. rewrite length_map in Horder.
    pose proof (as_completed_perm (length qs) (env w)) as Hperm.
    destruct (as_completed (length qs) (env w)) as [order' e1].
    injection Horder as -> <-. simpl in Hperm.
    assert (Hbound : Forall (fun k => (k < length qs)%nat) order).
    { apply Forall_forall. intros k Hk. rewrite Hperm in Hk.
      apply elem_of_seq in Hk. lia. }
    apply bind_inv in Hrun as [(rs & w2 & Htasks & Hrun) | (e & Htasks & _)]; cycle 1.
    { apply run_tasks_run in Htasks as (? & ? & ? & ? & _); [discriminate|done]. }
    apply run_tasks_run in Htasks
      as (rs' & segs & picked & [= <-] & Htr & Hpick & Hsegs & Hres & Hext & Hnil);
      [|done].
    apply first_failure_run in Hrun as [-> Hok].
    exists segs, picked. split; [done|].
    split; [by eapply picked_permutation|]. split; [done|].
    split; [|split; [done|exact Hnil]].
    intros Hr. specialize (Hok Hr). clear -Hres Hok.
    induction Hres as [|seg res segs rs Hone _ IH]; [constructor|].
    apply Forall_cons in Hok as [Hres Hok]. constructor; auto.
Qed.

Lemma init_questions_file_run (w w' : World E) (r : Result unit) :
  init_questions_file args answer_file rp w = (r, w') ->
  ((exists e, r = Raise e) /\ w' = w)
  \/ (r = Ok tt /\ truncates args rp = false /\ w' = w)
  \/ (r = Ok tt /\ truncates args rp = true
      /\ env w' = env w
      /\ files w' = <[questions_file_of answer_file := []]> (files w)
      /\ trace w' = trace w ++ [EvTruncate (questions_file_of answer_file)]).
Proof.
  unfold init_questions_file, truncates. destruct rp; cycle 1.
  { intros [= <- <-]. right. left. done. }
  unfold os_makedirs, global_args, bind, raise, ret, truncate.
  destruct (os_path_dirname (questions_file_of answer_file)) as [|c d].
  { intros [= <- <-]. left. eauto. }
  destruct args as [a|]; cycle 1.
  { intros [= <- <-]. left. eauto. }
  simpl. destruct (negb (Args.resume a) && negb (Args.retry_failures a)).
  - intros [= <- <-]. right. right. simpl. done.
  - intros [= <- <-]. right. left. done.
Qed.

(** Lines 234-235 and 260-261: the post-pass of a non-empty batch. *)
Lemma post_pass_run (qs : list Question.t) (w w' : World E) (r : Result unit) :
  (if (0 <? length qs)%nat then call_reorg_answer_file answer_file else ret tt) w
  = (r, w') ->
  (qs = [] /\ r = Ok tt /\ w' = w)
  \/ (qs <> []
      /\ r = fst (reorg_answer_file answer_file (files w))
      /\ files w' = snd (reorg_answer_file answer_file (files w))
      /\ trace w' = trace w ++ [EvReorg answer_file]).
Proof.
  destruct qs as [|q qs]; simpl.
  - intros [= <- <-]. by left.
  - unfold call_reorg_answer_file.
    destruct (reorg_answer_file answer_file (files w)) as [r0 fs'].
    intros [= <- <-]. right. done.
Qed.

Lemma run_questions_run (parallel : Z) (qs : list Question.t) (w w' : World E)
    (r : Result unit) :
  run_questions args parallel qs model num_choices max_tokens answer_file api_dict
    stream ft rp an w = (r, w') ->
  exists pre segs picked post fs0 fs1,
    batch_shape args answer_file rp parallel qs w r w' pre segs picked post fs0 fs1.
Proof.
  unfold run_questions. intros Hrun.
  apply bind_inv in Hrun as [([] & w0 & Hinit & Hrun) | (e & Hinit & ->)]; cycle 1.
  { apply init_questions_file_run in Hinit as [[_ ->] | [(? & _) | (? & _)]];
      try discriminate.
    exists [], [], [], [], (files w), (files w). unfold batch_shape. simpl.
    rewrite app_nil_r.
    split; [done|]. split; [by left|]. split; [constructor|]. split; [done|].
    split; [by left|]. split; [apply extends_refl|]. split; [done|].
    split; [by left|]. split; [discriminate|done]. }
  assert (Hstart : exists pre fs0,
             trace w0 = trace w ++ pre /\ files w0 = fs0
             /\ ((pre = [] /\ fs0 = files w)
                 \/ (truncates args rp = true
                     /\ pre = [EvTruncate (questions_file_of answer_file)]
                     /\ fs0 = <[questions_file_of answer_file := []]> (files w)))).
  { apply init_questions_file_run in Hinit
      as [[[e ?] _] | [(_ & _ & ->) | (_ & Ht & _ & Hf & Htr)]]; [discriminate| |].
    - exists [], (files w). rewrite app_nil_r. split; [done|]. split; [done|]. by left.
    - eexists _, _. split; [exact Htr|]. split; [exact Hf|]. right. done. }
  destruct Hstart as (pre & fs0 & Htr0 & Hf0 & Hpre). clear Hinit.
  assert (Hcalls : exists w1 r1 segs picked,
             (if parallel =? 1
              then for_each qs (fun question _ => call question) tt
              else thread_pool parallel (List.map call qs)) w0 = (r1, w1)
             /\ trace w1 = trace w0 ++ concat segs
             /\ Forall2 (fun seg q => call_events answer_file q seg) segs picked
             /\ (parallel = 1 -> picked = take (length segs) qs)
             /\ (parallel <> 1 -> segs = [] \/ Permutation picked qs)
             /\ extends (files w0) (files w1) /\ (segs = [] -> files w1 = files w0)
             /\ (r1 = Ok tt ->
                 Forall (answered answer_file) segs /\ Permutation picked qs
                 /\ (parallel = 1 -> picked = qs))
             /\ (qs = [] -> segs = [])).
  { destruct (parallel =? 1) eqn:Hp.
    - apply Z.eqb_eq in Hp.
      destruct (for_each qs (fun question _ => call question) tt w0) as [r1 w1] eqn:Hseq.
      apply sequential_run in Hseq as (segs & Htr1 & Hsegs & Hlen & Hok & Hext & Hnil).
      exists w1, r1, segs, (take (length segs) qs).
      split; [done|]. split; [done|]. split; [done|]. split; [done|].
      split; [done|]. split; [done|]. split; [done|].
      split.
      + intros Hr. destruct (Hok Hr) as [Hl Hall]. rewrite Hl, firstn_all. done.
      + intros ->. simpl in Hlen. destruct segs; [done|simpl in Hlen; lia].
    - apply Z.eqb_neq in Hp.
      destruct (thread_pool parallel (List.map call qs) w0) as [r1 w1] eqn:Hpool.
      apply thread_pool_run in Hpool
        as [(_ & [e ->] & ->)
           | (_ & segs & picked & Htr1 & Hperm & Hsegs & Hok & Hext & Hnil)].
      + exists w0, (Raise e), [], []. simpl. rewrite app_nil_r.
        split; [done|]. split; [done|]. split; [constructor|]. split; [done|].
        split; [by left|]. split; [apply extends_refl|]. split; [done|].
        split; [discriminate|done].
      + exists w1, r1, segs, picked.
        split; [done|]. split; [done|]. split; [done|]. split; [done|].
        split; [by right|]. split; [done|]. split; [done|].
        split.
        { intros Hr. split; [by apply Hok|]. split; [done|]. intros ?. lia. }
        intros ->. apply Permutation_nil_r in Hperm as ->.
        by apply Forall2_nil_inv_r in Hsegs. }
  destruct Hcalls as (w1 & r1 & segs & picked & Hcalls & Htr1 & Hsegs & Hseq & Hpar
                      & Hext & Hnil & Hok & Hempty).
  assert (Hrun' :
            bind (if parallel =? 1
                  then for_each qs (fun question _ => call question) tt
                  else thread_pool parallel (List.map call qs))
              (fun _ => if (0 <? length qs)%nat
                        then call_reorg_answer_file answer_file else ret tt) w0
            = (r, w')).
  { unfold call. by destruct (parallel =? 1). }
  clear Hrun. unfold bind in Hrun'. rewrite Hcalls in Hrun'.
  exists pre, segs, picked.
  destruct r1 as [[]|e].
  - specialize (Hok eq_refl). destruct Hok as (Hall & Hperm & Hpicked).
    apply post_pass_run in Hrun' as [(-> & -> & ->) | (Hqs & -> & Hf & Htr2)].
    + exists [], fs0, (files w1). unfold batch_shape. rewrite app_nil_r.
      split; [by rewrite Htr1, Htr0, <- app_assoc|]. split; [done|].
      split; [done|]. split; [done|]. split; [done|].
      split; [by rewrite <- Hf0|]. split; [by rewrite <- Hf0|].
      split; [by left|]. split; [done|]. auto.
    + exists [EvReorg answer_file], fs0, (files w1). unfold batch_shape.
      split; [rewrite Htr2, Htr1, Htr0, <- !app_assoc; done|]. split; [done|].
      split; [done|]. split; [done|]. split; [done|].
      split; [by rewrite <- Hf0|]. split; [by rewrite <- Hf0|].
      split; [by right|]. split; [done|]. done.
  - injection Hrun' as <- <-.
    exists [], fs0, (files w1). unfold batch_shape. rewrite app_nil_r.
    split; [by rewrite Htr1, Htr0, <- app_assoc|]. split; [done|].
    split; [done|]. split; [done|]. split; [done|].
    split; [by rewrite <- Hf0|]. split; [by rewrite <- Hf0|].
    split; [by left|]. split; [discriminate|]. auto.
Qed.

End Calls.

End Batch.

(** ** The batch *)



(** The sequential run of the two questions returns, and wrote q2 then q1. *)
Example run_questions_sequential_two :
  let run := run_questions None 1 [Scenario.q2; Scenario.q1] Scenario.model_four 1 4096
               Scenario.answer_file None false None false false
               (Scenario.world0 Scenario.tape0) in
  fst run = Ok tt
  /\ List.map Answer.question_id (answers_appended Scenario.answer_file (trace (snd run)))
     = [str "q2"; str "q1"]
  /\ reorgs (trace (snd run)) = [Scenario.answer_file].
Proof. vm_compute. repeat split; reflexivity. Qed.

(** C7, as the code has it.  In either branch the post-pass runs at most
    once, as the last event of the run, and only for a non-empty list after
    [get_answer] was entered once for every question and every call wrote
    its answer record; a run over a non-empty list that returns has run it
    exactly once.  On the empty list there is no call, no request and no
    post-pass, and the answer records are untouched; the run is a no-op
    except that it still empties the modification log when
    [randomize_prompt] is set and neither [resume] nor [retry_failures]
    is. *)
Theorem run_questions_post_pass {E} `{Environment E} `{PyStr} `{!Imports E}
    (args : option Args.t) (parallel : Z) (qs : list Question.t) (model : Model E)
    (num_choices max_tokens : Z) (answer_file : text) (api_dict : option ApiDict.t)
    (stream : bool) (ft : option Q) (rp an : bool) (w w' : World E)
    (r : Result unit) (evs : list Event) :
  run_questions args parallel qs model num_choices max_tokens answer_file api_dict
    stream ft rp an w = (r, w') ->
  trace w' = trace w ++ evs ->
  (reorgs evs = []
   \/ exists before,
        evs = before ++ [EvReorg answer_file]
        /\ reorgs before = [] /\ qs <> []
        /\ Permutation (entered before) qs
        /\ length (answers_appended answer_file before) = length qs)
  /\ (r = Ok tt -> qs <> [] -> reorgs evs = [answer_file])
  /\ (qs = [] ->
      entered evs = [] /\ requests evs = [] /\ reorgs evs = []
      /\ answers_appended answer_file evs = []
      /\ ((evs = [] /\ files w' = files w)
          \/ (truncates args rp = true
              /\ evs = [EvTruncate (questions_file_of answer_file)]
              /\ files w' = <[questions_file_of answer_file := []]> (files w)))).
Proof.
  intros Hrun Htr.
  apply run_questions_run in Hrun
    as (pre & segs & picked & post & fs0 & fs1 & Htr' & Hpre & Hsegs & _ & _ & _ & Hnil
        & Hpost & Hok & Hempty).
  rewrite Htr in Htr'. apply app_inv_head in Htr' as ->.
  destruct (segments_summary _ _ _ Hsegs) as (Hent & Hreorg & _ & Hans).
  assert (Hpre' : entered pre = [] /\ reorgs pre = [] /\ requests pre = []
                  /\ answers_appended answer_file pre = []).
  { destruct Hpre as [[-> _] | (_ & -> & _)]; done. }
  destruct Hpre' as (Hpre1 & Hpre2 & Hpre3 & Hpre4).
  split; [|split].
  - destruct Hpost as [[-> _] | (-> & Hqs & Hall & Hperm & _ & _)].
    + left. by rewrite !reorgs_app, Hpre2, Hreorg.
    + right. exists (pre ++ concat segs). rewrite <- app_assoc.
      split; [done|]. split; [by rewrite reorgs_app, Hpre2, Hreorg|].
      split; [done|].
      split; [by rewrite entered_app, Hpre1, Hent|].
      rewrite answers_appended_app, Hpre4. simpl.
      rewrite <- (length_map Answer.question_id), (Hans Hall), length_map.
      by apply Permutation_length.
  - intros Hr Hqs. destruct (Hok Hr) as (_ & _ & _ & Hp). rewrite (Hp Hqs).
    by rewrite !reorgs_app, Hpre2, Hreorg.
  - intros Hqs. destruct (Hempty Hqs) as [-> ->]. simpl. rewrite !app_nil_r.
    split; [done|]. split; [done|]. split; [done|]. split; [done|].
    destruct Hpost as [[_ ->] | (? & _)]; [|discriminate].
    rewrite (Hnil eq_refl).
    destruct Hpre as [[-> ->] | (Ht & -> & ->)]; [by left | by right].
Qed.

Lemma run_questions_post_pass_witness :
  let run := run_questions None 4 [Scenario.q2; Scenario.q1] Scenario.model_four 1 4096
               Scenario.answer_file None false None false false
               (Scenario.world0 Scenario.tape_reversed) in
  let evs := trace (snd run) in
  (reorgs evs = []
   \/ exists before,
        evs = before ++ [EvReorg Scenario.answer_file]
        /\ reorgs before = [] /\ [Scenario.q2; Scenario.q1] <> []
        /\ Permutation (entered before) [Scenario.q2; Scenario.q1]
        /\ length (answers_appended Scenario.answer_file before)
           = length [Scenario.q2; Scenario.q1])
  /\ (fst run = Ok tt -> [Scenario.q2; Scenario.q1] <> [] ->
      reorgs evs = [Scenario.answer_file])
  /\ ([Scenario.q2; Scenario.q1] = [] ->
      entered evs = [] /\ requests evs = [] /\ reorgs evs = []
      /\ answers_appended Scenario.answer_file evs = []
      /\ ((evs = [] /\ files (snd run) = files (Scenario.world0 Scenario.tape_reversed))
          \/ (truncates None false = true
              /\ evs = [EvTruncate (questions_file_of Scenario.answer_file)]
              /\ files (snd run)
                 = <[questions_file_of Scenario.answer_file := []]>
                     (files (Scenario.world0 Scenario.tape_reversed))))).
Proof.
  intros run evs.
  apply (run_questions_post_pass None 4 [Scenario.q2; Scenario.q1] Scenario.model_four
           1 4096 Scenario.answer_file None false None false false
           (Scenario.world0 Scenario.tape_reversed) (snd run) (fst run)).
  - apply surjective_pairing.
  - reflexivity.
Defined.

(** Four workers, two questions, the pool completing in reverse order: the
    calls appear as q1 then q2, and the post-pass is the one last event. *)
Example run_questions_parallel_two :
  let run := run_questions None 4 [Scenario.q2; Scenario.q1] Scenario.model_four 1 4096
               Scenario.answer_file None false None false false
               (Scenario.world0 Scenario.tape_reversed) in
  fst run = Ok tt
  /\ entered (trace (snd run)) = [Scenario.q1; Scenario.q2]
  /\ reorgs (trace (snd run)) = [Scenario.answer_file]
  /\ last (trace (snd run)) = Some (EvReorg Scenario.answer_file).
Proof. vm_compute. repeat split; reflexivity. Qed.

(** On the empty list, a fresh randomizing run is not a no-op: the record
    an earlier run left in the modification log is gone. *)
Lemma run_questions_empty_truncates :
  let run := run_questions (Some Scenario.cli_fresh) 1 [] Scenario.model_four 1 4096
               Scenario.answer_file None false None true false Scenario.world_logged in
  fst run = Ok tt
  /\ files Scenario.world_logged !! questions_file_of Scenario.answer_file
     = Some [ModificationLine Scenario.old_record]
  /\ files (snd run) !! questions_file_of Scenario.answer_file = Some []
  /\ snd run <> Scenario.world_logged.
Proof.
  vm_compute. repeat split; try reflexivity. discriminate.
Qed.

(** ** The modification log *)

Lemma replace_from_skip (old new s : text) :
  replace_from old new (length s) s = [].
Proof. induction s as [|c s IH]; simpl; done. Qed.

Lemma startswith_app (s rest : text) : startswith (s ++ rest) s = true.
Proof.
  induction s as [|c s IH]; simpl; [by destruct rest|].
  unfold char_eqb. rewrite N.eqb_refl. exact IH.
Qed.

Lemma replace_suffix (base old new : text) :
  old <> [] ->
  no_match_before (base ++ old) old (length base) = true ->
  replace (base ++ old) old new = base ++ new.
Proof.
  intros Hold Hno. unfold replace. destruct old as [|o old']; [done|]. clear Hold.
  set (old := o :: old') in *.
  assert (Hfree : forall k, (k < length base)%nat ->
                            startswith (drop k (base ++ old)) old = false).
  { intros k Hk. unfold no_match_before in Hno.
    rewrite forallb_forall in Hno. apply negb_true_iff, Hno, in_seq. lia. }
  clear Hno. induction base as [|c base IH].
  - simpl. unfold char_eqb at 1. rewrite N.eqb_refl. simpl.
    pose proof (startswith_app old' []) as Hs. rewrite app_nil_r in Hs. rewrite Hs.
    by rewrite replace_from_skip, app_nil_r.
  - change ((c :: base) ++ old) with (c :: (base ++ old)).
    pose proof (Hfree 0%nat ltac:(simpl; lia)) as H0. simpl drop in H0.
    change (replace_from old new 0 (c :: base ++ old))
      with (if startswith (c :: base ++ old) old
            then new ++ replace_from old new (Nat.pred (length old)) (base ++ old)
            else c :: replace_from old new 0 (base ++ old)).
    rewrite H0. simpl. f_equal. apply IH.
    intros k Hk. apply (Hfree (S k)). simpl. lia.
Qed.

Lemma modifications_to_log {E} `{Environment E} `{PyStr} `{!Imports E}
    (args : option Args.t) (q : Question.t) (model : Model E)
    (num_choices max_tokens : Z) (answer_file : text) (api_dict : option ApiDict.t)
    (stream : bool) (ft : option Q) (rp an : bool) (w w' : World E)
    (r : Result unit) (evs : list Event) :
  get_answer args q model num_choices max_tokens answer_file api_dict stream ft rp an w
  = (r, w') ->
  trace w' = trace w ++ evs ->
  forall p m, In (p, m) (modifications_appended evs) -> p = questions_file_of answer_file.
Proof.
  intros Hrun Htr.
  apply get_answer_run in Hrun as [(e & reqs & -> & _ & Htr' & Hreq) | Hw].
  - rewrite Htr in Htr'. apply app_inv_head in Htr' as ->.
    rewrite cons_as_app, modifications_appended_app.
    destruct (requests_silent _ answer_file Hreq) as (_ & _ & -> & _). by intros ? ? [].
  - destruct Hw as (temperature & chunks & ans & tail & _ & _ & Hall & _ & _
                    & _ & _ & _ & Htr' & Hlast).
    rewrite Htr in Htr'. apply app_inv_head in Htr' as ->.
    pose proof (request_ok_is_request _ (choice_trace_requests _ _ _ _ _ _ Hall)) as Hreq.
    rewrite cons_as_app, (cons_as_app _ tail), !modifications_appended_app.
    destruct (requests_silent _ answer_file Hreq) as (_ & _ & -> & _). simpl.
    destruct (last chunks) as [c|].
    + destruct Hlast as [_ Hlast]. destruct (rp || an).
      * destruct Hlast as (m & -> & _). intros p m' [[= <- _]|[]]. done.
      * destruct Hlast as [-> _]. by intros ? ? [].
    + destruct Hlast as (_ & -> & _). by intros ? ? [].
Qed.

(** C9, as the code has it.  For an answer file whose name holds [".jsonl"]
    only as its suffix, the modification log is the name with that suffix
    replaced by ["_QUESTIONS.jsonlx"]; [get_answer] writes its modification
    records there and only ever appends to files.  [run_questions] empties
    the log at most once, as its first event, and only when
    [randomize_prompt] is set and neither [resume] nor [retry_failures] is;
    in a run that does not empty it (and whose post-pass rewrites the
    answer file alone) the lines the log held before are still there, in
    front of the new ones. *)
Theorem modification_log_discipline {E} `{Environment E} `{PyStr} `{!Imports E}
    (args : option Args.t) (parallel : Z) (qs : list Question.t) (model : Model E)
    (num_choices max_tokens : Z) (answer_file : text) (api_dict : option ApiDict.t)
    (stream : bool) (ft : option Q) (rp an : bool) (w w' : World E)
    (r : Result unit) (evs : list Event) :
  run_questions args parallel qs model num_choices max_tokens answer_file api_dict
    stream ft rp an w = (r, w') ->
  trace w' = trace w ++ evs ->
  (forall base,
     no_match_before (base ++ str ".jsonl") (str ".jsonl") (length base) = true ->
     questions_file_of (base ++ str ".jsonl") = base ++ str "_QUESTIONS.jsonlx")
  /\ (forall q (w1 w2 : World E) r1 evs1,
        get_answer args q model num_choices max_tokens answer_file api_dict stream ft
          rp an w1 = (r1, w2) ->
        trace w2 = trace w1 ++ evs1 ->
        extends (files w1) (files w2)
        /\ truncations evs1 = []
        /\ forall p m, In (p, m) (modifications_appended evs1) ->
                       p = questions_file_of answer_file)
  /\ (truncations evs = []
      \/ (truncates args rp = true
          /\ exists rest,
               evs = EvTruncate (questions_file_of answer_file) :: rest
               /\ truncations rest = []))
  /\ (truncates args rp = false -> truncations evs = [])
  /\ (truncations evs = [] ->
      reorg_local ->
      questions_file_of answer_file <> answer_file ->
      forall old,
        files w !! questions_file_of answer_file = Some old ->
        exists new, files w' !! questions_file_of answer_file = Some (old ++ new)).
Proof.
  intros Hrun Htr.
  split.
  { intros base Hbase. unfold questions_file_of. by apply replace_suffix. }
  split.
  { intros q w1 w2 r1 evs1 Hcall Htr1.
    pose proof (modifications_to_log _ _ _ _ _ _ _ _ _ _ _ _ _ _ _ Hcall Htr1) as Hmods.
    apply get_answer_events in Hcall as (seg & Htr2 & (rest & -> & _ & _ & Ht & _) & _ & Hext).
    rewrite Htr1 in Htr2. apply app_inv_head in Htr2 as ->.
    split; [done|]. split; [|done].
    by rewrite cons_as_app, truncations_app, Ht. }
  apply run_questions_run in Hrun
    as (pre & segs & picked & post & fs0 & fs1 & Htr' & Hpre & Hsegs & _ & _ & Hext & _
        & Hpost & _).
  rewrite Htr in Htr'. apply app_inv_head in Htr' as ->.
  destruct (segments_summary _ _ _ Hsegs) as (_ & _ & Htrunc & _).
  assert (Hpost' : truncations post = []).
  { destruct Hpost as [[-> _] | (-> & _)]; done. }
  assert (Hrest : truncations (concat segs ++ post) = []).
  { by rewrite truncations_app, Htrunc, Hpost'. }
  split; [|split].
  - destruct Hpre as [[-> _] | (Ht & -> & _)].
    + left. done.
    + right. split; [done|]. by exists (concat segs ++ post).
  - intros Hno. destruct Hpre as [[-> _] | (Ht & _)]; [done|congruence].
  - intros Hnone Hlocal Hne old Hold.
    destruct Hpre as [[-> ->] | (_ & -> & _)]; [|discriminate].
    destruct (Hext _ _ Hold) as [new Hnew]. exists new.
    destruct Hpost as [[_ ->] | (_ & _ & _ & _ & _ & ->)]; [done|].
    by rewrite Hlocal.
Qed.

(** A resumed randomizing run over one question: the record of the earlier
    run stays at the head of the log. *)
Lemma modification_log_discipline_witness :
  let run := run_questions (Some Scenario.cli_resume) 1 [Scenario.q1] Scenario.model_four
               1 4096 Scenario.answer_file None false None true false
               Scenario.world_logged in
  exists new,
    files (snd run) !! questions_file_of Scenario.answer_file
    = Some ([ModificationLine Scenario.old_record] ++ new).
Proof.
  intros run.
  destruct (modification_log_discipline (Some Scenario.cli_resume) 1 [Scenario.q1]
              Scenario.model_four 1 4096 Scenario.answer_file None false None true false
              Scenario.world_logged (snd run) (fst run) (trace (snd run)))
    as (_ & _ & _ & _ & Hkeep).
  - apply surjective_pairing.
  - reflexivity.
  - apply Hkeep.
    + vm_compute. reflexivity.
    + intros p fs p' _. reflexivity.
    + vm_compute. discriminate.
    + reflexivity.
Defined.

(** The path of the log for the answer file of the examples. *)
Example questions_file_of_answer_file :
  questions_file_of Scenario.answer_file
  = str "data/live_bench/math/model_answer/m_QUESTIONS.jsonlx".
Proof. vm_compute. reflexivity. Qed.

(** [str.replace] rewrites every occurrence, not the suffix alone. *)
Example questions_file_of_inner_match :
  questions_file_of (str "runs.jsonl/m.jsonl")
  = str "runs_QUESTIONS.jsonlx/m_QUESTIONS.jsonlx".
Proof. vm_compute. reflexivity. Qed.

(** A fresh randomizing run over one question drops what the log held: the
    record of the earlier run is gone, the log holds the one new record. *)
Lemma run_questions_drops_log :
  let run := run_questions (Some Scenario.cli_fresh) 1 [Scenario.q1] Scenario.model_four
               1 4096 Scenario.answer_file None false None true false
               Scenario.world_logged in
  let log := default [] (files (snd run) !! questions_file_of Scenario.answer_file) in
  fst run = Ok tt
  /\ files Scenario.world_logged !! questions_file_of Scenario.answer_file
     = Some [ModificationLine Scenario.old_record]
  /\ List.map Modification.question_id (modification_lines log) = [str "q1"]
  /\ ~ In (ModificationLine Scenario.old_record) log.
Proof.
  vm_compute. repeat split; try reflexivity.
  intros [Hin|[]]. discriminate.
Qed.

(** * Further properties *)

(** ** Paths *)

Lemma after_last_slash_0 (p : text) : after_last_slash p = 0%nat <-> ~ In 47%N p.
Proof.
  induction p as [|c p IH]; simpl; [tauto|].
  destruct (after_last_slash p) as [|k].
  - unfold char_eqb. destruct (N.eqb_spec c 47%N) as [->|Hc].
    + split; [discriminate|]. intros Hn. exfalso. apply Hn. by left.
    + split; [|done]. intros _ [Heq|Hin]; [congruence|]. by apply IH.
  - split; [discriminate|]. intros Hn. exfalso.
    destruct IH as [_ IH]. discriminate IH. intros Hin. apply Hn. by right.
Qed.

Lemma rstrip_slash_rev_nil (r : text) :
  rstrip_slash_rev r = [] -> forallb (fun c => char_eqb c 47%N) r = true.
Proof.
  induction r as [|c r IH]; simpl; [done|].
  destruct (char_eqb c 47%N); [exact IH | discriminate].
Qed.

Lemma forallb_rev {A} (f : A -> bool) (l : list A) : forallb f (rev l) = forallb f l.
Proof.
  induction l as [|x l IH]; simpl; [done|].
  rewrite forallb_app, IH. simpl. rewrite andb_true_r. apply andb_comm.
Qed.

(** [os.path.dirname] is empty exactly on a path without a slash. *)
Lemma os_path_dirname_nil (p : text) : os_path_dirname p = [] <-> ~ In 47%N p.
Proof.
  unfold os_path_dirname. split.
  - intros Hd Hin.
    destruct (after_last_slash p) as [|k] eqn:Hk.
    { apply after_last_slash_0 in Hk. by apply Hk. }
    destruct p as [|c p]; [done|]. simpl firstn in Hd.
    destruct (forallb _ (c :: firstn k p)) eqn:Hall; [discriminate|].
    apply (f_equal (@rev char)) in Hd. rewrite rev_involutive in Hd. simpl rev in Hd.
    apply rstrip_slash_rev_nil in Hd.
    rewrite <- (forallb_rev _ (c :: firstn k p)) in Hall. simpl rev in Hall. congruence.
  - intros Hn. apply after_last_slash_0 in Hn. rewrite Hn. done.
Qed.

Lemma no_match_before_spec (s old : text) (n : nat) :
  no_match_before s old n = true
  <-> forall k, (k < n)%nat -> startswith (drop k s) old = false.
Proof.
  unfold no_match_before. rewrite forallb_forall. split.
  - intros Hall k Hk. apply negb_true_iff, Hall, in_seq. lia.
  - intros Hall k Hk. apply in_seq in Hk. apply negb_true_iff, Hall. lia.
Qed.

Lemma occurs_spec (old s : text) :
  occurs old s = true
  <-> exists k, (k < length s)%nat /\ startswith (drop k s) old = true.
Proof.
  unfold occurs. rewrite negb_true_iff. split.
  - intros Hno.
    destruct (decide (Exists (fun k => startswith (drop k s) old = true)
                        (seq 0 (length s)))) as [Hex|Hnex].
    + apply Exists_exists in Hex as (k & Hk & Hs). exists k. split; [|done].
      apply elem_of_seq in Hk. lia.
    + exfalso. assert (no_match_before s old (length s) = true); [|congruence].
      apply no_match_before_spec. intros k Hk.
      destruct (startswith (drop k s) old) eqn:Hs; [|done].
      exfalso. apply Hnex, Exists_exists. exists k. split; [|done].
      apply elem_of_seq. lia.
  - intros (k & Hk & Hs).
    destruct (no_match_before s old (length s)) eqn:Hno; [|done].
    rewrite no_match_before_spec in Hno. rewrite (Hno k Hk) in Hs. discriminate.
Qed.

Lemma replace_from_cons (old new : text) (c : char) (s : text) :
  replace_from old new 0 (c :: s)
  = if startswith (c :: s) old
    then new ++ replace_from old new (Nat.pred (length old)) s
    else c :: replace_from old new 0 s.
Proof. reflexivity. Qed.

Lemma replace_from_no_match (old new s : text) :
  no_match_before s old (length s) = true -> replace_from old new 0 s = s.
Proof.
  rewrite no_match_before_spec. induction s as [|c s IH]; intros Hno; [done|].
  pose proof (Hno 0%nat ltac:(simpl; lia)) as H0. rewrite drop_0 in H0.
  rewrite replace_from_cons, H0. f_equal. apply IH.
  intros k Hk. apply (Hno (S k)). simpl. lia.
Qed.

Lemma replace_from_length (old new : text) (skip : nat) (s : text) :
  (length old <= length new)%nat -> old <> [] ->
  (length s <= length (replace_from old new skip s) + skip)%nat.
Proof.
  intros Hlen Hold. revert skip. induction s as [|c s IH]; intros skip; [simpl; lia|].
  destruct skip as [|k].
  - rewrite replace_from_cons. destruct (startswith (c :: s) old).
    + rewrite length_app. specialize (IH (Nat.pred (length old))).
      destruct old; [done|]. simpl in *. lia.
    + specialize (IH 0%nat). simpl length. lia.
  - specialize (IH k). change (replace_from old new (S k) (c :: s))
      with (replace_from old new k s). simpl length. lia.
Qed.

Lemma replace_from_grows (old new s : text) (k : nat) :
  (length old < length new)%nat -> old <> [] ->
  startswith (drop k s) old = true ->
  (length s < length (replace_from old new 0 s))%nat.
Proof.
  intros Hlen Hold. revert k. induction s as [|c s IH]; intros k Hk.
  - rewrite drop_nil in Hk. destruct old; [done|discriminate].
  - rewrite replace_from_cons.
    destruct (startswith (c :: s) old) eqn:H0.
    + rewrite length_app.
      pose proof (replace_from_length old new (Nat.pred (length old)) s
                    ltac:(lia) Hold).
      destruct old; [done|]. simpl in *. lia.
    + destruct k as [|k]; [rewrite drop_0 in Hk; congruence|].
      change (drop (S k) (c :: s)) with (drop k s) in Hk.
      specialize (IH k Hk). simpl length. lia.
Qed.

Lemma questions_file_of_grows (answer_file : text) :
  occurs (str ".jsonl") answer_file = true ->
  (length answer_file < length (questions_file_of answer_file))%nat.
Proof.
  intros Hocc. apply occurs_spec in Hocc as (k & _ & Hk).
  unfold questions_file_of, replace. simpl.
  eapply replace_from_grows; [simpl; lia | discriminate | exact Hk].
Qed.

(** X1. The modification log is the answer file itself exactly when
    [".jsonl"] occurs nowhere in the path of the answer file; wherever it
    occurs, the log has a longer, hence different, path. *)
Theorem questions_file_of_same_iff (answer_file : text) :
  (questions_file_of answer_file = answer_file
   <-> occurs (str ".jsonl") answer_file = false)
  /\ (occurs (str ".jsonl") answer_file = true ->
      (length answer_file < length (questions_file_of answer_file))%nat).
Proof.
  split; [|apply questions_file_of_grows]. split.
  - intros Heq. destruct (occurs (str ".jsonl") answer_file) eqn:Hocc; [|done].
    apply questions_file_of_grows in Hocc. rewrite Heq in Hocc. lia.
  - intros Hocc. unfold occurs in Hocc. apply negb_false_iff in Hocc.
    unfold questions_file_of, replace. simpl. by apply replace_from_no_match.
Qed.

Lemma occurs_suffix (old base : text) : old <> [] -> occurs old (base ++ old) = true.
Proof.
  intros Hold. apply occurs_spec. exists (length base). split.
  - rewrite length_app. destruct old; [done|]. simpl. lia.
  - rewrite drop_app_length. rewrite <- (app_nil_r old) at 1. apply startswith_app.
Qed.

Lemma replace_from_skip_app (old new a s : text) :
  replace_from old new (length a) (a ++ s) = replace_from old new 0 s.
Proof.
  induction a as [|c a IH]; [done|]. exact IH.
Qed.

Lemma replace_prefix (old new rest : text) :
  old <> [] -> occurs old rest = false -> replace (old ++ rest) old new = new ++ rest.
Proof.
  intros Hold Hocc. unfold occurs in Hocc. apply negb_false_iff in Hocc.
  unfold replace. destruct old as [|o old']; [done|].
  change ((o :: old') ++ rest) with (o :: (old' ++ rest)).
  rewrite replace_from_cons.
  change (o :: (old' ++ rest)) with ((o :: old') ++ rest).
  rewrite startswith_app. f_equal.
  change (Nat.pred (length (o :: old'))) with (length old').
  rewrite replace_from_skip_app. by apply replace_from_no_match.
Qed.

Lemma replace_absent (s old new : text) :
  old <> [] -> occurs old s = false -> replace s old new = s.
Proof.
  intros Hold Hocc. unfold occurs in Hocc. apply negb_false_iff in Hocc.
  unfold replace. destruct old; [done|]. by apply replace_from_no_match.
Qed.

(** X2. The answer file the script builds for a task of the benchmark always
    has a directory part, so that [os.makedirs] is never handed the empty
    path, and its modification log is always another file than the answer
    file itself. *)
Theorem answer_file_of_task_paths (super_path category_name task_name display_name : text) :
  os_path_dirname (answer_file_of_task super_path category_name task_name display_name) <> []
  /\ questions_file_of (answer_file_of_task super_path category_name task_name display_name)
     <> answer_file_of_task super_path category_name task_name display_name.
Proof.
  split.
  - intros Hd. apply os_path_dirname_nil in Hd. apply Hd.
    unfold answer_file_of_task. apply in_or_app. left. vm_compute. tauto.
  - intros Heq.
    assert (Hocc : occurs (str ".jsonl")
                     (answer_file_of_task super_path category_name task_name display_name)
                   = true).
    { unfold answer_file_of_task. rewrite !app_assoc. by apply occurs_suffix. }
    apply questions_file_of_grows in Hocc. rewrite Heq in Hocc. lia.
Qed.

(** X3. For a question file whose directory is ["data/"] followed by a
    benchmark path in which ["data/"] does not occur again, the answer file
    of the script lies in the folder [model_answer] beside the question
    file. *)
Theorem answer_file_of_question_file_beside (question_file display_name bench : text) :
  os_path_dirname question_file = str "data/" ++ bench ->
  occurs (str "data/") bench = false ->
  answer_file_of_question_file question_file display_name
  = os_path_dirname question_file ++ str "/model_answer/" ++ display_name ++ str ".jsonl".
Proof.
  intros Hdir Hocc. unfold answer_file_of_question_file. rewrite Hdir.
  rewrite replace_prefix; [|discriminate|exact Hocc].
  rewrite <- app_assoc. reflexivity.
Qed.

Lemma answer_file_of_question_file_beside_witness :
  answer_file_of_question_file (str "data/live_bench/math/question.jsonl") (str "m")
  = os_path_dirname (str "data/live_bench/math/question.jsonl")
    ++ str "/model_answer/" ++ str "m" ++ str ".jsonl".
Proof.
  apply (answer_file_of_question_file_beside _ _ (str "live_bench/math")); reflexivity.
Defined.

(** X4. A question file whose directory does not mention ["data/"] still gets
    its answers below [data/]: the answer file is ["data/"], the directory
    of the question file, then [model_answer] and the name of the model. *)
Theorem answer_file_of_question_file_outside (question_file display_name : text) :
  occurs (str "data/") (os_path_dirname question_file) = false ->
  answer_file_of_question_file question_file display_name
  = str "data/" ++ os_path_dirname question_file
    ++ str "/model_answer/" ++ display_name ++ str ".jsonl".
Proof.
  intros Hocc. unfold answer_file_of_question_file.
  rewrite replace_absent; [done|discriminate|exact Hocc].
Qed.

Lemma answer_file_of_question_file_outside_witness :
  answer_file_of_question_file (str "bench/question.jsonl") (str "m")
  = str "data/" ++ os_path_dirname (str "bench/question.jsonl")
    ++ str "/model_answer/" ++ str "m" ++ str ".jsonl".
Proof.
  apply answer_file_of_question_file_outside. reflexivity.
Defined.

(** ** Releases and slices *)

Lemma text_leb_refl (a : text) : text_leb a a = true.
Proof.
  induction a as [|x a IH]; [done|]. simpl.
  rewrite N.ltb_irrefl, N.eqb_refl. exact IH.
Qed.

Lemma text_leb_trans (a b c : text) :
  text_leb a b = true -> text_leb b c = true -> text_leb a c = true.
Proof.
  revert b c. induction a as [|x a IH]; intros [|y b] [|z c]; simpl; try done.
  destruct (N.ltb_spec x y), (N.eqb_spec x y), (N.ltb_spec y z), (N.eqb_spec y z),
    (N.ltb_spec x z), (N.eqb_spec x z); try done; try lia.
  apply IH.
Qed.

(** X5. The set of releases the script loads questions for holds known
    releases only, holds the chosen release exactly when the check of lines
    372-373 passes, and grows with the chosen release: a later choice
    includes every release of an earlier one. *)
Theorem release_set_cumulative (releases : gset text) (release_option : text) :
  release_set releases release_option ⊆ releases
  /\ (release_option ∈ release_set releases release_option
      <-> check_release releases release_option = Ok tt)
  /\ forall earlier : text,
       text_leb earlier release_option = true ->
       release_set releases earlier ⊆ release_set releases release_option.
Proof.
  unfold release_set, check_release. split; [|split].
  - intros r Hr. by apply elem_of_filter in Hr as [_ Hr].
  - rewrite elem_of_filter. split.
    + intros [_ Hin]. by destruct (decide _).
    + destruct (decide _) as [Hin|]; [|discriminate].
      intros _. split; [apply text_leb_refl | exact Hin].
  - intros earlier Hle r Hr. apply elem_of_filter in Hr as [Hr Hin].
    apply elem_of_filter. split; [|exact Hin]. by eapply text_leb_trans.
Qed.

Lemma slice_bound_range (len : Z) (k : Z) (default : Z) :
  0 <= len -> 0 <= slice_bound len (Some k) default <= len.
Proof.
  intros Hlen. unfold slice_bound.
  destruct (Z.ltb_spec k 0).
  - destruct (Z.ltb_spec (k + len) 0); [lia|].
    destruct (Z.leb_spec len (k + len)); lia.
  - destruct (Z.ltb_spec k 0); [lia|]. destruct (Z.leb_spec len k); lia.
Qed.

(** X6. Slicing the questions: with neither bound given every question is
    kept, and for any index [k], negative or beyond the end included, the
    questions before [k] followed by the questions from [k] on are the whole
    list, so that runs over [:k] and [k:] share no question and miss
    none. *)
Theorem py_slice_partition {A} (xs : list A) :
  py_slice xs None None = xs
  /\ forall k : Z, py_slice xs None (Some k) ++ py_slice xs (Some k) None = xs.
Proof.
  unfold py_slice. split.
  - simpl. rewrite Z.sub_0_r, Nat2Z.id, drop_0. apply firstn_all.
  - intros k.
    pose proof (slice_bound_range (Z.of_nat (length xs)) k 0 ltac:(lia)) as Hc.
    assert (Hsame : slice_bound (Z.of_nat (length xs)) (Some k) (Z.of_nat (length xs))
                    = slice_bound (Z.of_nat (length xs)) (Some k) 0) by done.
    rewrite Hsame. set (c := slice_bound _ _ _) in *.
    change (slice_bound (Z.of_nat (length xs)) None 0) with 0.
    change (slice_bound (Z.of_nat (length xs)) None (Z.of_nat (length xs)))
      with (Z.of_nat (length xs)).
    rewrite Z.sub_0_r. change (Z.to_nat 0) with 0%nat. rewrite drop_0.
    rewrite (take_ge (drop _ _)); [apply take_drop|].
    rewrite length_drop. lia.
Qed.

(** ** Edge cases of [get_answer] *)

(** X7. A forced temperature against a question that requires one fails the
    assertion of lines 60-62 at once, whether or not [args] is bound: no
    request is made and no file is touched. *)
Theorem get_answer_temperature_conflict {E} `{Environment E} `{PyStr} `{!Imports E}
    (args : option Args.t) (q : Question.t) (model : Model E)
    (num_choices max_tokens : Z) (answer_file : text) (api_dict : option ApiDict.t)
    (stream : bool) (t t' : Q) (rp an : bool) (w : World E) :
  Question.required_temperature q = Some t' ->
  get_answer args q model num_choices max_tokens answer_file api_dict stream (Some t)
    rp an w
  = (Raise AssertionError,
     {| env := env w; files := files w; trace := trace w ++ [EvGetAnswer q] |}).
Proof.
  intros Hq. unfold get_answer, bind, emit, resolve_temperature, assert_, raise. simpl.
  rewrite Hq. reflexivity.
Qed.

Lemma get_answer_temperature_conflict_witness :
  get_answer None Scenario.q2 Scenario.model_four 1 4096 Scenario.answer_file None false
    (Some (1 # 2)) true true (Scenario.world0 Scenario.tape0)
  = (Raise AssertionError,
     {| env := Scenario.tape0; files := ∅; trace := [EvGetAnswer Scenario.q2] |}).
Proof.
  apply (get_answer_temperature_conflict None Scenario.q2 Scenario.model_four 1 4096
           Scenario.answer_file None false (1 # 2) (7 # 10) true true
           (Scenario.world0 Scenario.tape0)).
  reflexivity.
Defined.

Lemma resolve_temperature_configured {E} `{Environment E} `{PyStr} `{!Imports E}
    (args : option Args.t) (q : Question.t) (ft : option Q) :
  configured args q ft = true ->
  exists temperature, forall w : World E,
    resolve_temperature args q ft w = (Ok temperature, w).
Proof.
  unfold configured, resolve_temperature, assert_, global_args, bind, ret, raise.
  destruct ft as [t|], (Question.required_temperature q) as [t'|], args as [a|];
    simpl; try discriminate; intros _; eexists; intros w; reflexivity.
Qed.

Lemma range_nonpositive (n : Z) : n <= 0 -> range n = [].
Proof. intros Hn. unfold range. by replace (Z.to_nat n) with 0%nat by lia. Qed.

Lemma range_positive (n : Z) : 1 <= n -> exists rest, range n = 0 :: rest.
Proof.
  intros Hn. unfold range. destruct (Z.to_nat n) as [|k] eqn:Hk; [lia|].
  simpl. eauto.
Qed.

(** X8. With [num_choices] zero or negative the loop over choices does not
    run: the call makes no request, still writes an answer record, with no
    choice and a token count of 0, and then raises [UnboundLocalError] at
    the first read of [modified_question], which only the loop binds. *)
Theorem get_answer_no_choices {E} `{Environment E} `{PyStr} `{!Imports E}
    (args : option Args.t) (q : Question.t) (model : Model E)
    (num_choices max_tokens : Z) (answer_file : text) (api_dict : option ApiDict.t)
    (stream : bool) (ft : option Q) (rp an : bool) (w w' : World E) (r : Result unit) :
  num_choices <= 0 ->
  configured args q ft = true ->
  os_path_dirname answer_file <> [] ->
  get_answer args q model num_choices max_tokens answer_file api_dict stream ft rp an w
  = (r, w') ->
  r = Raise (UnboundLocalError (str "modified_question"))
  /\ exists ans,
       trace w' = trace w ++ [EvGetAnswer q; EvAppend answer_file (AnswerLine ans)]
       /\ Answer.question_id ans = Question.question_id q
       /\ Answer.choices ans = []
       /\ Answer.total_output_tokens ans = 0
       /\ files w' = file_append (files w) answer_file (AnswerLine ans).
Proof.
  intros Hn Hcfg Hdir Hrun.
  destruct (resolve_temperature_configured args q ft Hcfg) as [temperature Hres].
  unfold get_answer, bind, emit in Hrun. rewrite Hres in Hrun.
  rewrite (range_nonpositive _ Hn) in Hrun. unfold os_makedirs in Hrun.
  destruct (os_path_dirname answer_file) as [|c d]; [done|].
  destruct rp; unfold from_env in Hrun; simpl in Hrun.
  - destruct (make_random_prefix (env w)) as [prefix e1]. simpl in Hrun.
    destruct (shortuuid_uuid e1) as [answer_id e2]. simpl in Hrun.
    destruct (time_time e2) as [tstamp e3]. simpl in Hrun.
    injection Hrun as <- <-. split; [done|]. eexists. simpl.
    rewrite <- app_assoc. repeat split; done.
  - destruct (shortuuid_uuid (env w)) as [answer_id e2]. simpl in Hrun.
    destruct (time_time e2) as [tstamp e3]. simpl in Hrun.
    injection Hrun as <- <-. split; [done|]. eexists. simpl.
    rewrite <- app_assoc. repeat split; done.
Qed.

Lemma get_answer_no_choices_witness :
  let run := get_answer None Scenario.q1 Scenario.model_four 0 4096 Scenario.answer_file
               None false None true false (Scenario.world0 Scenario.tape0) in
  fst run = Raise (UnboundLocalError (str "modified_question"))
  /\ exists ans,
       trace (snd run)
       = trace (Scenario.world0 Scenario.tape0)
         ++ [EvGetAnswer Scenario.q1; EvAppend Scenario.answer_file (AnswerLine ans)]
       /\ Answer.question_id ans = Question.question_id Scenario.q1
       /\ Answer.choices ans = []
       /\ Answer.total_output_tokens ans = 0
       /\ files (snd run)
          = file_append (files (Scenario.world0 Scenario.tape0)) Scenario.answer_file
              (AnswerLine ans).
Proof.
  apply (get_answer_no_choices None Scenario.q1 Scenario.model_four 0 4096
           Scenario.answer_file None false None true false
           (Scenario.world0 Scenario.tape0));
    [lia | reflexivity | discriminate | apply surjective_pairing].
Defined.

(** X9. Without an API dictionary and without an API function of the model,
    a call that has a turn to send fails the assertion of line 134 at the
    first turn of the first choice: no request is made and nothing is
    written. *)
Theorem get_answer_without_api {E} `{Environment E} `{PyStr} `{!Imports E}
    (args : option Args.t) (q : Question.t) (model : Model E)
    (num_choices max_tokens : Z) (answer_file : text)
    (stream : bool) (ft : option Q) (rp an : bool) (w w' : World E) (r : Result unit) :
  api_function model = None ->
  Question.turns q <> [] ->
  1 <= num_choices ->
  configured args q ft = true ->
  get_answer args q model num_choices max_tokens answer_file None stream ft rp an w
  = (r, w') ->
  r = Raise AssertionError
  /\ files w' = files w
  /\ trace w' = trace w ++ [EvGetAnswer q].
Proof.
  intros Hapi Hturns Hn Hcfg Hrun.
  destruct (resolve_temperature_configured args q ft Hcfg) as [temperature Hres].
  destruct (range_positive _ Hn) as [indices Hrange].
  destruct (Question.turns q) as [|t0 turns] eqn:Hq; [done|]. clear Hturns.
  unfold get_answer, bind, emit in Hrun. rewrite Hres, Hrange in Hrun.
  assert (Hfirst : forall (prefix : text) (st : AnswerState) (w0 : World E),
            exists e1,
              bind (choice_body q model max_tokens None stream temperature rp an prefix
                      0 st)
                (fun s' =>
                   for_each indices
                     (choice_body q model max_tokens None stream temperature rp an
                        prefix) s') w0
              = (Raise AssertionError,
                 {| env := e1; files := files w0; trace := trace w0 |})).
  { intros prefix st w0. unfold bind, choice_body, bind. rewrite Hq. simpl.
    unfold bind, turn_body, bind, getitem. rewrite Hq. simpl.
    unfold from_env. destruct (perturb_turn rp an prefix 0 t0 (env w0)) as [[p flag] e1].
    unfold call_model. rewrite Hapi. simpl. eauto. }
  destruct rp; unfold from_env in Hrun; simpl in Hrun.
  - destruct (make_random_prefix (env w)) as [prefix e0].
    match type of Hrun with
    | context [bind (choice_body _ _ _ _ _ _ _ _ _ 0 ?st) _ ?w0] =>
        destruct (Hfirst prefix st w0) as [e1 Hloop]
    end.
    rewrite Hloop in Hrun. injection Hrun as <- <-. done.
  - match type of Hrun with
    | context [bind (choice_body _ _ _ _ _ _ _ _ _ 0 ?st) _ ?w0] =>
        destruct (Hfirst [] st w0) as [e1 Hloop]
    end.
    rewrite Hloop in Hrun. injection Hrun as <- <-. done.
Qed.

Lemma get_answer_without_api_witness :
  let run := get_answer None Scenario.q1 Scenario.model_offline 1 4096
               Scenario.answer_file None false None true true
               (Scenario.world0 Scenario.tape0) in
  fst run = Raise AssertionError
  /\ files (snd run) = files (Scenario.world0 Scenario.tape0)
  /\ trace (snd run) = trace (Scenario.world0 Scenario.tape0) ++ [EvGetAnswer Scenario.q1].
Proof.
  apply (get_answer_without_api None Scenario.q1 Scenario.model_offline 1 4096
           Scenario.answer_file false None true true (Scenario.world0 Scenario.tape0));
    [reflexivity | discriminate | lia | reflexivity | apply surjective_pairing].
Defined.

(** X10. An answer file named without a directory part can never be written:
    [os.makedirs] is handed the empty path.  The call never returns, writes
    no record and leaves the files as they were, yet only fails after the
    requests were made: with the call well configured and every request
    answered the exception is [FileNotFoundError]. *)
Theorem get_answer_without_directory {E} `{Environment E} `{PyStr} `{!Imports E}
    (args : option Args.t) (q : Question.t) (model : Model E)
    (num_choices max_tokens : Z) (answer_file : text) (api_dict : option ApiDict.t)
    (stream : bool) (ft : option Q) (rp an : bool) (w w' : World E) (r : Result unit) :
  ~ In 47%N answer_file ->
  get_answer args q model num_choices max_tokens answer_file api_dict stream ft rp an w
  = (r, w') ->
  files w' = files w
  /\ (exists e reqs,
        r = Raise e /\ trace w' = trace w ++ EvGetAnswer q :: reqs
        /\ Forall (fun ev => is_request ev = true) reqs)
  /\ (configured args q ft = true ->
      (forall conv temperature max_tokens' (w0 : World E),
         is_ok (fst (call_model model api_dict stream conv temperature max_tokens' w0))
         = true) ->
      r = Raise (FileNotFoundError [])).
Proof.
  intros Hslash Hrun. apply os_path_dirname_nil in Hslash.
  pose proof Hrun as Hrun'.
  apply get_answer_run in Hrun' as [(e & reqs & -> & Hf & Htr & Hreq) | Hw]; cycle 1.
  { destruct Hw as (? & ? & ? & ? & _ & _ & _ & _ & _ & _ & _ & Hdir & _). done. }
  split; [done|]. split; [by exists e, reqs|].
  intros Hcfg Hrep.
  destruct (resolve_temperature_configured args q ft Hcfg) as [temperature Hres].
  unfold get_answer in Hrun.
  apply bind_inv in Hrun as [([] & w0 & Hemit & Hrun) | (e' & Hemit & _)];
    [|discriminate].
  apply bind_inv in Hrun as [(temperature' & w1 & _ & Hrun) | (e' & Hres' & _)]; cycle 1.
  { rewrite Hres in Hres'. discriminate. }
  apply bind_inv in Hrun as [(prefix & w2 & Hpre & Hrun) | (e' & Hpre & _)]; cycle 1.
  { destruct rp; [|discriminate]. unfold from_env in Hpre.
    destruct (make_random_prefix _); discriminate. }
  apply bind_inv in Hrun as [(st & w3 & Hloop & Hrun) | (e' & Hloop & _)]; cycle 1.
  { pose proof (choices_loop_returns q model max_tokens api_dict stream Hrep
                  temperature' rp an prefix (range num_choices)
                  {| as_choices := []; as_total_num_tokens := 0;
                     as_modified_question := None |} w2) as Hok.
    rewrite Hloop in Hok. discriminate. }
  unfold bind, from_env in Hrun.
  destruct (shortuuid_uuid (env w3)) as [x e4]. simpl in Hrun.
  destruct (time_time e4) as [y e5]. simpl in Hrun.
  rewrite Hslash in Hrun. simpl in Hrun. by injection Hrun as <- _.
Qed.

Lemma get_answer_without_directory_witness :
  let run := get_answer None Scenario.q1 Scenario.model_four 1 4096 (str "m.jsonl")
               None false None false false (Scenario.world0 Scenario.tape0) in
  files (snd run) = files (Scenario.world0 Scenario.tape0)
  /\ (exists e reqs,
        fst run = Raise e
        /\ trace (snd run)
           = trace (Scenario.world0 Scenario.tape0) ++ EvGetAnswer Scenario.q1 :: reqs
        /\ Forall (fun ev => is_request ev = true) reqs)
  /\ (configured None Scenario.q1 None = true ->
      (forall conv temperature max_tokens' (w0 : World Scenario.Tape),
         is_ok (fst (call_model Scenario.model_four None false conv temperature
                       max_tokens' w0)) = true) ->
      fst run = Raise (FileNotFoundError [])).
Proof.
  apply (get_answer_without_directory None Scenario.q1 Scenario.model_four 1 4096
           (str "m.jsonl") None false None false false (Scenario.world0 Scenario.tape0));
    [vm_compute; intuition discriminate | apply surjective_pairing].
Defined.

(** The requests are made before the directory is looked at. *)
Example get_answer_without_directory_requests :
  let run := get_answer None Scenario.q1 Scenario.model_four 1 4096 (str "m.jsonl")
               None false None false false (Scenario.world0 Scenario.tape0) in
  fst run = Raise (FileNotFoundError [])
  /\ List.map ev_output (requests (trace (snd run))) = [Some (str "4")].
Proof. vm_compute. done. Qed.

(** X11. A call of [get_answer] touches two files at most, the answer file
    and its modification log: every other file is as it was, and the two
    only grow. *)
Theorem get_answer_frame {E} `{Environment E} `{PyStr} `{!Imports E}
    (args : option Args.t) (q : Question.t) (model : Model E)
    (num_choices max_tokens : Z) (answer_file : text) (api_dict : option ApiDict.t)
    (stream : bool) (ft : option Q) (rp an : bool) (w w' : World E) (r : Result unit) :
  get_answer args q model num_choices max_tokens answer_file api_dict stream ft rp an w
  = (r, w') ->
  extends (files w) (files w')
  /\ forall p : text,
       p <> answer_file -> p <> questions_file_of answer_file ->
       files w' !! p = files w !! p.
Proof.
  intros Hrun. split.
  { by apply get_answer_events in Hrun as (seg & _ & _ & _ & Hext). }
  intros p Hp Hq.
  apply get_answer_run in Hrun as [(e & reqs & -> & Hf & _) | Hw].
  { by rewrite Hf. }
  destruct Hw as (temperature & chunks & ans & tail & _ & _ & _ & _ & _ & _ & _ & _ & _
                  & Hlast).
  destruct (last chunks) as [c|].
  - destruct Hlast as [_ Hlast]. destruct (rp || an).
    + destruct Hlast as (m & _ & -> & _).
      by rewrite !file_append_lookup_ne.
    + destruct Hlast as [_ ->]. by rewrite file_append_lookup_ne.
  - destruct Hlast as (_ & _ & ->). by rewrite file_append_lookup_ne.
Qed.

Lemma get_answer_frame_witness :
  let run := get_answer None Scenario.q1 Scenario.model_four 1 4096 Scenario.answer_file
               None false None true false Scenario.world_logged in
  extends (files Scenario.world_logged) (files (snd run))
  /\ forall p : text,
       p <> Scenario.answer_file -> p <> questions_file_of Scenario.answer_file ->
       files (snd run) !! p = files Scenario.world_logged !! p.
Proof.
  intros run.
  apply (get_answer_frame None Scenario.q1 Scenario.model_four 1 4096
           Scenario.answer_file None false None true false Scenario.world_logged
           (snd run) (fst run)).
  apply surjective_pairing.
Defined.

Lemma prompts_app (xs ys : list Event) : prompts (xs ++ ys) = prompts xs ++ prompts ys.
Proof. apply omap_app. Qed.

Lemma prompts_concat (chunks : list (list Event)) :
  prompts (concat chunks) = concat (List.map prompts chunks).
Proof.
  induction chunks as [|c chunks IH]; [done|]. simpl. by rewrite prompts_app, IH.
Qed.

Lemma plain_turns {E} `{Environment E} `{PyStr}
    (q : Question.t) temperature (prefix : text) (c : list Event) :
  choice_trace q temperature false false prefix c ->
  prompts c = Question.turns q.
Proof.
  intros [_ Hc].
  rewrite (turn_prompts_imap (fun _ t => t) (Question.turns q) c 0).
  - rewrite drop_0. clear Hc. induction (Question.turns q) as [|t l IH]; [done|].
    simpl. f_equal. exact IH.
  - rewrite Nat.sub_0_r. eapply Forall2_impl; [exact Hc|].
    intros ev j (t & e & Ht & Hev). exists t. split; [done|].
    by rewrite Hev, perturb_turn_eq.
Qed.

(** X12. With neither [randomize_prompt] nor [add_noise] a call that returns
    has sent the turns of the question as they are, once per choice, has
    written no modification record, and has changed the files by the one
    answer record only. *)
Theorem get_answer_plain {E} `{Environment E} `{PyStr} `{!Imports E}
    (args : option Args.t) (q : Question.t) (model : Model E)
    (num_choices max_tokens : Z) (answer_file : text) (api_dict : option ApiDict.t)
    (stream : bool) (ft : option Q) (w w' : World E) (evs : list Event) :
  get_answer args q model num_choices max_tokens answer_file api_dict stream ft
    false false w = (Ok tt, w') ->
  trace w' = trace w ++ evs ->
  prompts evs = concat (replicate (Z.to_nat num_choices) (Question.turns q))
  /\ modifications_appended evs = []
  /\ exists ans, answers_appended answer_file evs = [ans]
                 /\ files w' = file_append (files w) answer_file (AnswerLine ans).
Proof.
  intros Hrun Htr.
  apply get_answer_run in Hrun as [(e & reqs & He & _) | Hw]; [discriminate|].
  destruct Hw as (temperature & chunks & ans & tail & _ & Hlen & Hall & _ & _ & _ & _ & _
                  & Htr' & Hlast).
  rewrite Htr in Htr'. apply app_inv_head in Htr' as ->.
  assert (Htail : tail = [] /\ files w' = file_append (files w) answer_file (AnswerLine ans)).
  { destruct (last chunks); [destruct Hlast as [_ Hlast]; exact Hlast|].
    destruct Hlast as (He & _). discriminate. }
  destruct Htail as [-> Hfiles].
  assert (Hreq : Forall (fun ev => is_request ev = true) (concat chunks)).
  { apply request_ok_is_request. by eapply choice_trace_requests. }
  destruct (requests_silent _ answer_file Hreq) as (_ & Hans & Hmod & _).
  split; [|split].
  - rewrite (cons_as_app (EvGetAnswer q)), (cons_as_app (EvAppend _ _)), !prompts_app,
      prompts_concat. simpl. rewrite app_nil_r.
    unfold range in Hlen. rewrite length_map, length_seq in Hlen. rewrite <- Hlen.
    clear Hlen Hreq Hans Hmod Hlast Hfiles Htr.
    induction Hall as [|c chunks Hc Hall IH]; [done|].
    simpl. by rewrite (plain_turns _ _ _ _ Hc), IH.
  - rewrite (cons_as_app (EvGetAnswer q)), (cons_as_app (EvAppend _ _)),
      !modifications_appended_app, Hmod. done.
  - exists ans. split; [|exact Hfiles].
    rewrite (cons_as_app (EvGetAnswer q)), (cons_as_app (EvAppend _ _)),
      !answers_appended_app, Hans, answers_appended_answer. done.
Qed.

Lemma get_answer_plain_witness :
  let run := get_answer None Scenario.q2 Scenario.model_four 2 4096 Scenario.answer_file
               None false None false false (Scenario.world0 Scenario.tape0) in
  prompts (trace (snd run))
  = concat (replicate (Z.to_nat 2) (Question.turns Scenario.q2))
  /\ modifications_appended (trace (snd run)) = []
  /\ exists ans, answers_appended Scenario.answer_file (trace (snd run)) = [ans]
                 /\ files (snd run)
                    = file_append (files (Scenario.world0 Scenario.tape0))
                        Scenario.answer_file (AnswerLine ans).
Proof.
  intros run.
  apply (get_answer_plain None Scenario.q2 Scenario.model_four 2 4096
           Scenario.answer_file None false None (Scenario.world0 Scenario.tape0)
           (snd run) (trace (snd run))); [|unfold Scenario.world0; cbn [trace app]; reflexivity].
  transitivity (fst run, snd run); [apply surjective_pairing|].
  apply (f_equal (fun r => (r, snd run))). vm_compute. reflexivity.
Defined.

(** ** What a run adds to the trace *)

Section Emits.

Context {E : Type} `{Environment E} `{PyStr} `{!Imports E}.
Variable P : Event -> Prop.

Lemma emits_silent {A} (c : M E A) :
  (forall w r w', c w = (r, w') -> trace w' = trace w) -> emits P c.
Proof.
  intros Hc w r w' Hrun. exists []. rewrite app_nil_r. split; [by eapply Hc|done].
Qed.

Lemma emits_one {A} (c : M E A) (ev : Event) :
  P ev -> (forall w r w', c w = (r, w') -> trace w' = trace w ++ [ev]) -> emits P c.
Proof.
  intros Hev Hc w r w' Hrun. exists [ev]. split; [by eapply Hc|]. by constructor.
Qed.

Lemma emits_ret {A} (a : A) : emits P (ret a : M E A).
Proof. apply emits_silent. by intros w r w' [= _ <-]. Qed.

Lemma emits_raise {A} (e : exn) : emits P (raise e : M E A).
Proof. apply emits_silent. by intros w r w' [= _ <-]. Qed.

Lemma emits_from_env {A} (g : E -> A * E) : emits P (from_env g).
Proof.
  apply emits_silent. intros w r w'. unfold from_env.
  destruct (g (env w)) as [a e']. by intros [= _ <-].
Qed.

Lemma emits_emit (ev : Event) : P ev -> emits P (emit ev : M E unit).
Proof. intros Hev. apply (emits_one _ ev Hev). by intros w r w' [= _ <-]. Qed.

Lemma emits_append_line (path : text) (l : Line) :
  P (EvAppend path l) -> emits P (append_line path l : M E unit).
Proof. intros Hev. apply (emits_one _ _ Hev). by intros w r w' [= _ <-]. Qed.

Lemma emits_truncate (path : text) :
  P (EvTruncate path) -> emits P (truncate path : M E unit).
Proof. intros Hev. apply (emits_one _ _ Hev). by intros w r w' [= _ <-]. Qed.

Lemma emits_reorg (path : text) :
  P (EvReorg path) -> emits P (call_reorg_answer_file path).
Proof.
  intros Hev. apply (emits_one _ _ Hev). intros w r w'. unfold call_reorg_answer_file.
  destruct (reorg_answer_file path (files w)) as [r0 fs']. by intros [= _ <-].
Qed.

Lemma emits_os_makedirs (path : text) : emits P (os_makedirs path : M E unit).
Proof. destruct path; [apply emits_raise | apply emits_ret]. Qed.

Lemma emits_bind_ok {A B} (R : A -> Prop) (c : M E A) (k : A -> M E B) :
  (forall w a w1, c w = (Ok a, w1) -> R a) ->
  emits P c -> (forall a, R a -> emits P (k a)) -> emits P (bind c k).
Proof.
  intros HR Hc Hk w r w' Hrun.
  apply bind_inv in Hrun as [(a & w1 & Hc1 & Hk1) | (e & Hc1 & ->)].
  - destruct (Hc _ _ _ Hc1) as (evs1 & Htr1 & H1).
    destruct (Hk a (HR _ _ _ Hc1) _ _ _ Hk1) as (evs2 & Htr2 & H2).
    exists (evs1 ++ evs2). split; [by rewrite Htr2, Htr1, app_assoc|].
    by apply Forall_app.
  - by apply (Hc _ _ _ Hc1).
Qed.

Lemma emits_bind {A B} (c : M E A) (k : A -> M E B) :
  emits P c -> (forall a, emits P (k a)) -> emits P (bind c k).
Proof.
  intros Hc Hk. apply (emits_bind_ok (fun _ => True)); auto.
Qed.

Lemma emits_for_each {A S} (xs : list A) (body : A -> S -> M E S) (s : S) :
  (forall x s', In x xs -> emits P (body x s')) -> emits P (for_each xs body s).
Proof.
  revert s. induction xs as [|x xs IH]; intros s Hbody; simpl; [apply emits_ret|].
  apply emits_bind; [apply Hbody; by left|].
  intros s'. apply IH. intros y s'' Hy. apply Hbody. by right.
Qed.

Lemma emits_attempt {A} (c : M E A) : emits P c -> emits P (attempt c).
Proof.
  intros Hc w r w' Hrun. unfold attempt in Hrun.
  destruct (c w) as [r0 w0] eqn:Hcw. injection Hrun as _ <-. by eapply Hc.
Qed.

Lemma emits_run_tasks (tasks : list (M E unit)) (order : list nat) :
  (forall t, In t tasks -> emits P t) -> emits P (run_tasks tasks order).
Proof.
  intros Htasks. induction order as [|k order IH]; simpl; [apply emits_ret|].
  apply emits_bind.
  - apply emits_attempt. destruct (nth_in_or_default k tasks (ret tt)) as [Hin | ->].
    + by apply Htasks.
    + apply emits_ret.
  - intros r. apply emits_bind; [exact IH|]. intros rs. apply emits_ret.
Qed.

Lemma emits_first_failure (rs : list (Result unit)) : emits P (first_failure rs : M E unit).
Proof.
  induction rs as [|[[]|e] rs IH]; simpl; [apply emits_ret | exact IH | apply emits_raise].
Qed.

Lemma emits_thread_pool (max_workers : Z) (tasks : list (M E unit)) :
  (forall t, In t tasks -> emits P t) -> emits P (thread_pool max_workers tasks).
Proof.
  intros Htasks. unfold thread_pool. destruct (max_workers <=? 0); [apply emits_raise|].
  apply emits_bind; [apply emits_from_env|]. intros order.
  apply emits_bind; [by apply emits_run_tasks|]. intros rs. apply emits_first_failure.
Qed.

Lemma emits_init_questions_file (args : option Args.t) (answer_file : text) (rp : bool) :
  (rp = true -> P (EvTruncate (questions_file_of answer_file))) ->
  emits (E:=E) P (init_questions_file args answer_file rp).
Proof.
  intros Hrp. unfold init_questions_file. destruct rp; [|apply emits_ret].
  apply emits_bind; [apply emits_os_makedirs|]. intros _.
  apply emits_bind; [destruct args; [apply emits_ret | apply emits_raise]|].
  intros a. destruct (_ && _); [by apply emits_truncate; auto | apply emits_ret].
Qed.

(** The events of a batch are those of its calls, a truncation of the log
    if the run randomizes, and the post-pass. *)
Lemma emits_run_questions (args : option Args.t) (parallel : Z) (qs : list Question.t)
    (model : Model E) (num_choices max_tokens : Z) (answer_file : text)
    (api_dict : option ApiDict.t) (stream : bool) (ft : option Q) (rp an : bool) :
  (rp = true -> P (EvTruncate (questions_file_of answer_file))) ->
  P (EvReorg answer_file) ->
  (forall q, In q qs ->
     emits P (get_answer args q model num_choices max_tokens answer_file api_dict stream
                ft rp an)) ->
  emits P (run_questions args parallel qs model num_choices max_tokens answer_file
             api_dict stream ft rp an).
Proof.
  intros Htrunc Hreorg Hcalls. unfold run_questions.
  apply emits_bind; [by apply emits_init_questions_file|]. intros _.
  assert (Hpost : emits P (if (0 <? length qs)%nat
                           then call_reorg_answer_file answer_file else ret tt)).
  { destruct (0 <? length qs)%nat; [by apply emits_reorg | apply emits_ret]. }
  destruct (parallel =? 1).
  - apply emits_bind; [|by intros _].
    apply emits_for_each. intros q _ Hq. by apply Hcalls.
  - apply emits_bind; [|by intros _].
    apply emits_thread_pool. intros t Ht.
    apply in_map_iff in Ht as (q & <- & Hq). by apply Hcalls.
Qed.

End Emits.

Lemma emits_turn_body {E} `{Environment E} `{PyStr} `{!Imports E} (P : Event -> Prop)
    q (model : Model E) max_tokens api_dict stream temperature rp an prefix j st :
  (forall conv reply, P (EvRequest conv temperature max_tokens reply)) ->
  emits P (turn_body q model max_tokens api_dict stream temperature rp an prefix j st).
Proof.
  intros HP w r w' Hrun.
  apply turn_body_run in Hrun
    as [_ [(e & _ & Htr) | (t & p & flag & e1 & conv & reply & _ & _ & _ & Htr & _)]].
  - exists []. by rewrite app_nil_r.
  - exists [EvRequest conv temperature max_tokens reply]. split; [done|].
    constructor; [apply HP | done].
Qed.

(** The events of a call: its entry, requests at the resolved temperature
    with the token limit of the call, and appends to the answer file and to
    its log. *)
Lemma emits_get_answer {E} `{Environment E} `{PyStr} `{!Imports E} (P : Event -> Prop)
    (args : option Args.t) (q : Question.t) (model : Model E)
    (num_choices max_tokens : Z) (answer_file : text) (api_dict : option ApiDict.t)
    (stream : bool) (ft : option Q) (rp an : bool) :
  P (EvGetAnswer q) ->
  (forall a, P (EvAppend answer_file (AnswerLine a))) ->
  (forall m, P (EvAppend (questions_file_of answer_file) (ModificationLine m))) ->
  (forall temperature conv reply,
     (forall w0 : World E, fst (resolve_temperature args q ft w0) = Ok temperature) ->
     P (EvRequest conv temperature max_tokens reply)) ->
  emits P (get_answer args q model num_choices max_tokens answer_file api_dict stream
             ft rp an).
Proof.
  intros Hentry Hans Hmod Hreq. unfold get_answer.
  apply emits_bind; [by apply emits_emit|]. intros _.
  apply (emits_bind_ok P
           (fun t => forall w0 : World E, fst (resolve_temperature args q ft w0) = Ok t)).
  { intros w a w1 Hres w0.
    destruct (resolve_temperature_run args q ft w) as [_ Hind].
    by rewrite (Hind w0), Hres. }
  { apply emits_silent. intros w r w' Hres.
    destruct (resolve_temperature_run args q ft w) as [Hw _].
    rewrite Hres in Hw. simpl in Hw. by subst. }
  intros temperature Htemp.
  apply emits_bind; [destruct rp; [apply emits_from_env | apply emits_ret]|].
  intros prefix. apply emits_bind.
  { apply emits_for_each. intros i st _. unfold choice_body.
    apply emits_bind; [|intros ts; apply emits_ret].
    apply emits_for_each. intros j ts _. apply emits_turn_body.
    intros conv reply. by apply Hreq. }
  intros st. apply emits_bind; [apply emits_from_env|]. intros answer_id.
  apply emits_bind; [apply emits_from_env|]. intros tstamp.
  apply emits_bind; [apply emits_os_makedirs|]. intros _.
  apply emits_bind; [by apply emits_append_line|]. intros _.
  apply emits_bind.
  { destruct (as_modified_question st); [apply emits_ret | apply emits_raise]. }
  intros [mq|]; [|apply emits_ret].
  apply emits_bind; [apply emits_from_env|]. intros tstamp'.
  by apply emits_append_line.
Qed.

(** X13. Whatever its outcome, a call of [get_answer] sends all its requests
    with one and the same temperature, the one resolved at its start, and
    each with the token limit it was given. *)
Theorem get_answer_request_parameters {E} `{Environment E} `{PyStr} `{!Imports E}
    (args : option Args.t) (q : Question.t) (model : Model E)
    (num_choices max_tokens : Z) (answer_file : text) (api_dict : option ApiDict.t)
    (stream : bool) (ft : option Q) (rp an : bool) (w w' : World E) (r : Result unit)
    (evs : list Event) :
  get_answer args q model num_choices max_tokens answer_file api_dict stream ft rp an w
  = (r, w') ->
  trace w' = trace w ++ evs ->
  Forall (fun ev => ev_max_tokens ev = Some max_tokens
                    /\ exists temperature,
                         ev_temperature ev = Some temperature
                         /\ fst (resolve_temperature args q ft w) = Ok temperature)
    (requests evs).
Proof.
  intros Hrun Htr.
  pose (P := fun ev : Event =>
               is_request ev = true ->
               ev_max_tokens ev = Some max_tokens
               /\ exists temperature,
                    ev_temperature ev = Some temperature
                    /\ fst (resolve_temperature args q ft w) = Ok temperature).
  assert (Hemits : emits P (get_answer args q model num_choices max_tokens answer_file
                              api_dict stream ft rp an)).
  { apply emits_get_answer; try (intros; intros ?; discriminate).
    intros temperature conv reply Htemp _. split; [done|]. by exists temperature. }
  destruct (Hemits _ _ _ Hrun) as (evs' & Htr' & Hall).
  rewrite Htr in Htr'. apply app_inv_head in Htr' as <-.
  unfold requests. apply List.Forall_forall. intros ev Hev.
  apply filter_In in Hev as [Hin Hreq].
  rewrite List.Forall_forall in Hall. by apply (Hall ev Hin).
Qed.

Lemma get_answer_request_parameters_witness :
  let run := get_answer None Scenario.q2 Scenario.model_four 2 4096 Scenario.answer_file
               None false None true true (Scenario.world0 Scenario.tape0) in
  Forall (fun ev => ev_max_tokens ev = Some 4096
                    /\ exists temperature,
                         ev_temperature ev = Some temperature
                         /\ fst (resolve_temperature None Scenario.q2 None
                                   (Scenario.world0 Scenario.tape0)) = Ok temperature)
    (requests (trace (snd run))).
Proof.
  intros run.
  apply (get_answer_request_parameters None Scenario.q2 Scenario.model_four 2 4096
           Scenario.answer_file None false None true true
           (Scenario.world0 Scenario.tape0) (snd run) (fst run) (trace (snd run)));
    [apply surjective_pairing | unfold Scenario.world0; cbn [trace app]; reflexivity].
Defined.

(** X15. The footprint of a batch, whatever its branch and outcome:
    [get_answer] is entered for questions of the list only, every request
    carries the token limit of the batch, records are appended to the answer
    file and to its modification log only, only the log is ever emptied, and
    only the answer file is handed to the post-pass. *)
Theorem run_questions_footprint {E} `{Environment E} `{PyStr} `{!Imports E}
    (args : option Args.t) (parallel : Z) (qs : list Question.t) (model : Model E)
    (num_choices max_tokens : Z) (answer_file : text) (api_dict : option ApiDict.t)
    (stream : bool) (ft : option Q) (rp an : bool) (w w' : World E) (r : Result unit)
    (evs : list Event) :
  run_questions args parallel qs model num_choices max_tokens answer_file api_dict
    stream ft rp an w = (r, w') ->
  trace w' = trace w ++ evs ->
  Forall (fun ev =>
            match ev with
            | EvGetAnswer q => In q qs
            | EvRequest _ _ max_tokens' _ => max_tokens' = max_tokens
            | EvAppend path (AnswerLine _) => path = answer_file
            | EvAppend path (ModificationLine _) => path = questions_file_of answer_file
            | EvTruncate path => path = questions_file_of answer_file
            | EvReorg path => path = answer_file
            end) evs.
Proof.
  intros Hrun Htr.
  match goal with |- Forall ?P0 evs => set (P := P0) end.
  assert (Hemits : emits P (run_questions args parallel qs model num_choices max_tokens
                              answer_file api_dict stream ft rp an)).
  { apply emits_run_questions; [done | done |].
    intros q Hq. by apply emits_get_answer. }
  destruct (Hemits _ _ _ Hrun) as (evs' & Htr' & Hall).
  rewrite Htr in Htr'. by apply app_inv_head in Htr' as <-.
Qed.

Lemma run_questions_footprint_witness :
  let run := run_questions (Some Scenario.cli_fresh) 2 [Scenario.q2; Scenario.q1]
               Scenario.model_four 1 4096 Scenario.answer_file None false None true
               false (Scenario.world0 Scenario.tape_reversed) in
  Forall (fun ev =>
            match ev with
            | EvGetAnswer q => In q [Scenario.q2; Scenario.q1]
            | EvRequest _ _ max_tokens' _ => max_tokens' = 4096
            | EvAppend path (AnswerLine _) => path = Scenario.answer_file
            | EvAppend path (ModificationLine _) =>
                path = questions_file_of Scenario.answer_file
            | EvTruncate path => path = questions_file_of Scenario.answer_file
            | EvReorg path => path = Scenario.answer_file
            end) (trace (snd run)).
Proof.
  intros run.
  apply (run_questions_footprint (Some Scenario.cli_fresh) 2 [Scenario.q2; Scenario.q1]
           Scenario.model_four 1 4096 Scenario.answer_file None false None true false
           (Scenario.world0 Scenario.tape_reversed) (snd run) (fst run)
           (trace (snd run)));
    [apply surjective_pairing | unfold Scenario.world0; cbn [trace app]; reflexivity].
Defined.

(** ** Edge cases of [run_questions] *)

Lemma quiet_events (evs : list Event) :
  Forall (fun ev => modifications_appended [ev] = [] /\ truncations [ev] = []) evs ->
  modifications_appended evs = [] /\ truncations evs = [].
Proof.
  induction 1 as [|ev evs [Hm Ht] _ [IHm IHt]]; [done|].
  rewrite (cons_as_app ev), modifications_appended_app, truncations_app.
  by rewrite Hm, Ht, IHm, IHt.
Qed.

Lemma emits_get_answer_plain {E} `{Environment E} `{PyStr} `{!Imports E}
    (args : option Args.t) (q : Question.t) (model : Model E)
    (num_choices max_tokens : Z) (answer_file : text) (api_dict : option ApiDict.t)
    (stream : bool) (ft : option Q) :
  emits (fun ev => modifications_appended [ev] = [] /\ truncations [ev] = [])
    (get_answer args q model num_choices max_tokens answer_file api_dict stream ft
       false false).
Proof.
  intros w r w' Hrun.
  assert (Hquiet : forall reqs, Forall (fun ev => is_request ev = true) reqs ->
            Forall (fun ev => modifications_appended [ev] = [] /\ truncations [ev] = [])
              reqs).
  { intros reqs Hreq. eapply Forall_impl; [exact Hreq|]. by intros []. }
  apply get_answer_run in Hrun as [(e & reqs & -> & _ & Htr & Hreq) | Hw].
  - exists (EvGetAnswer q :: reqs). split; [done|]. constructor; [done|]. by apply Hquiet.
  - destruct Hw as (temperature & chunks & ans & tail & _ & _ & Hall & _ & _ & _ & _ & _
                    & Htr & Hlast).
    assert (tail = []) as ->.
    { destruct (last chunks); [by destruct Hlast as [_ [-> _]] | by destruct Hlast as (_ & -> & _)]. }
    eexists. split; [exact Htr|]. constructor; [done|].
    apply Forall_app. split; [|by constructor].
    apply Hquiet, request_ok_is_request. by eapply choice_trace_requests.
Qed.

(** X14. A batch run with neither [randomize_prompt] nor [add_noise] leaves
    the modification log alone, whatever its branch and outcome: it appends
    no modification record and empties no file. *)
Theorem run_questions_plain_keeps_log {E} `{Environment E} `{PyStr} `{!Imports E}
    (args : option Args.t) (parallel : Z) (qs : list Question.t) (model : Model E)
    (num_choices max_tokens : Z) (answer_file : text) (api_dict : option ApiDict.t)
    (stream : bool) (ft : option Q) (w w' : World E) (r : Result unit)
    (evs : list Event) :
  run_questions args parallel qs model num_choices max_tokens answer_file api_dict
    stream ft false false w = (r, w') ->
  trace w' = trace w ++ evs ->
  modifications_appended evs = [] /\ truncations evs = [].
Proof.
  intros Hrun Htr. apply quiet_events.
  assert (Hemits : emits (fun ev => modifications_appended [ev] = []
                                    /\ truncations [ev] = [])
                     (run_questions args parallel qs model num_choices max_tokens
                        answer_file api_dict stream ft false false)).
  { apply emits_run_questions; [discriminate | done |].
    intros q _. apply emits_get_answer_plain. }
  destruct (Hemits _ _ _ Hrun) as (evs' & Htr' & Hall).
  rewrite Htr in Htr'. by apply app_inv_head in Htr' as <-.
Qed.

Lemma run_questions_plain_keeps_log_witness :
  let run := run_questions None 2 [Scenario.q2; Scenario.q1] Scenario.model_four 1 4096
               Scenario.answer_file None false None false false Scenario.world_logged in
  modifications_appended (trace (snd run)) = [] /\ truncations (trace (snd run)) = [].
Proof.
  intros run.
  apply (run_questions_plain_keeps_log None 2 [Scenario.q2; Scenario.q1]
           Scenario.model_four 1 4096 Scenario.answer_file None false None
           Scenario.world_logged (snd run) (fst run) (trace (snd run)));
    [apply surjective_pairing | reflexivity].
Defined.

(** X16. With [parallel] zero or negative the pool cannot be built: the run
    raises, on the empty list of questions too, without entering
    [get_answer], making a request, writing an answer or running the
    post-pass; the start of the run, the emptying of the log included, has
    happened by then.  Without [randomize_prompt] the exception is the
    [ValueError] of the pool and the world is as it was. *)
Theorem run_questions_no_workers {E} `{Environment E} `{PyStr} `{!Imports E}
    (args : option Args.t) (parallel : Z) (qs : list Question.t) (model : Model E)
    (num_choices max_tokens : Z) (answer_file : text) (api_dict : option ApiDict.t)
    (stream : bool) (ft : option Q) (rp an : bool) (w w' : World E) (r : Result unit)
    (evs : list Event) :
  parallel <= 0 ->
  run_questions args parallel qs model num_choices max_tokens answer_file api_dict
    stream ft rp an w = (r, w') ->
  trace w' = trace w ++ evs ->
  (exists e, r = Raise e)
  /\ (evs = [] \/ (truncates args rp = true
                   /\ evs = [EvTruncate (questions_file_of answer_file)]))
  /\ (rp = false ->
      r = Raise (ValueError (str "max_workers must be greater than 0")) /\ w' = w).
Proof.
  intros Hp Hrun Htr. unfold run_questions in Hrun.
  replace (parallel =? 1) with false in Hrun by (symmetry; apply Z.eqb_neq; lia).
  unfold thread_pool in Hrun.
  replace (parallel <=? 0) with true in Hrun by (symmetry; apply Z.leb_le; lia).
  apply bind_inv in Hrun as [([] & w0 & Hinit & Hrun) | (e & Hinit & ->)].
  - unfold bind, raise in Hrun. injection Hrun as <- <-.
    split; [eauto|]. split.
    + apply (init_questions_file_run args model num_choices max_tokens answer_file
               api_dict stream ft rp an) in Hinit
        as [[[e He] _] | [(_ & _ & ->) | (_ & Ht & _ & _ & Htr0)]].
      * discriminate.
      * left. rewrite <- (app_nil_r (trace w)) in Htr at 1.
        by apply app_inv_head in Htr.
      * right. split; [done|]. rewrite Htr0 in Htr. by apply app_inv_head in Htr.
    + intros ->. by injection Hinit as <-.
  - split; [eauto|]. split.
    + apply (init_questions_file_run args model num_choices max_tokens answer_file
               api_dict stream ft rp an) in Hinit
        as [[_ ->] | [(He & _) | (He & _)]]; try discriminate.
      left. rewrite <- (app_nil_r (trace w)) in Htr at 1.
      by apply app_inv_head in Htr.
    + intros ->. discriminate.
Qed.

Lemma run_questions_no_workers_witness :
  let run := run_questions (Some Scenario.cli_fresh) 0 [] Scenario.model_four 1 4096
               Scenario.answer_file None false None true false Scenario.world_logged in
  (exists e, fst run = Raise e)
  /\ (trace (snd run) = []
      \/ (truncates (Some Scenario.cli_fresh) true = true
          /\ trace (snd run) = [EvTruncate (questions_file_of Scenario.answer_file)]))
  /\ (true = false ->
      fst run = Raise (ValueError (str "max_workers must be greater than 0"))
      /\ snd run = Scenario.world_logged).
Proof.
  intros run.
  apply (run_questions_no_workers (Some Scenario.cli_fresh) 0 [] Scenario.model_four 1
           4096 Scenario.answer_file None false None true false Scenario.world_logged
           (snd run) (fst run) (trace (snd run)));
    [lia | apply surjective_pairing | reflexivity].
Defined.

(** The log of the earlier run is gone although the run did nothing. *)
Example run_questions_no_workers_truncates :
  let run := run_questions (Some Scenario.cli_fresh) 0 [] Scenario.model_four 1 4096
               Scenario.answer_file None false None true false Scenario.world_logged in
  fst run = Raise (ValueError (str "max_workers must be greater than 0"))
  /\ files (snd run) !! questions_file_of Scenario.answer_file = Some [].
Proof. vm_compute. done. Qed.

(** X17. In the parallel branch a failing call stops no other: once the
    start of the run has succeeded, [get_answer] is entered exactly once for
    every question of the list, in some order, whether the run returns or
    raises. *)
Theorem run_questions_parallel_enters_all {E} `{Environment E} `{PyStr} `{!Imports E}
    (args : option Args.t) (parallel : Z) (qs : list Question.t) (model : Model E)
    (num_choices max_tokens : Z) (answer_file : text) (api_dict : option ApiDict.t)
    (stream : bool) (ft : option Q) (rp an : bool) (w w' : World E) (r : Result unit)
    (evs : list Event) :
  1 < parallel ->
  is_ok (fst (init_questions_file args answer_file rp w)) = true ->
  run_questions args parallel qs model num_choices max_tokens answer_file api_dict
    stream ft rp an w = (r, w') ->
  trace w' = trace w ++ evs ->
  Permutation (entered evs) qs.
Proof.
  intros Hp Hinit Hrun Htr. unfold run_questions in Hrun.
  replace (parallel =? 1) with false in Hrun by (symmetry; apply Z.eqb_neq; lia).
  apply bind_inv in Hrun as [([] & w0 & Hinit0 & Hrun) | (e & Hinit0 & _)]; cycle 1.
  { rewrite Hinit0 in Hinit. discriminate. }
  assert (Hpre : exists pre, trace w0 = trace w ++ pre /\ entered pre = []).
  { apply (init_questions_file_run args model num_choices max_tokens answer_file
             api_dict stream ft rp an) in Hinit0
      as [[_ ->] | [(_ & _ & ->) | (_ & _ & _ & _ & Htr0)]].
    - exists []. by rewrite app_nil_r.
    - exists []. by rewrite app_nil_r.
    - by eexists. }
  destruct Hpre as (pre & Htr0 & Hpre).
  assert (Hpool : forall r1 w1,
            thread_pool parallel
              (List.map
                 (fun question =>
                    get_answer args question model num_choices max_tokens answer_file
                      api_dict stream ft rp an) qs) w0 = (r1, w1) ->
            exists mid, trace w1 = trace w0 ++ mid /\ Permutation (entered mid) qs).
  { intros r1 w1 Hrun1.
    apply thread_pool_run in Hrun1
      as [(Hle & _) | (_ & segs & picked & Htr1 & Hperm & Hsegs & _)]; [lia|].
    exists (concat segs). split; [done|].
    destruct (segments_summary _ _ _ Hsegs) as (-> & _). done. }
  apply bind_inv in Hrun as [([] & w1 & Hrun1 & Hrun) | (e & Hrun1 & _)].
  - destruct (Hpool _ _ Hrun1) as (mid & Htr1 & Hmid).
    assert (Hpost : exists post, trace w' = trace w1 ++ post /\ entered post = []).
    { apply post_pass_run in Hrun as [(_ & _ & ->) | (_ & _ & _ & Htr2)].
      - exists []. by rewrite app_nil_r.
      - by eexists. }
    destruct Hpost as (post & Htr2 & Hpost).
    rewrite Htr2, Htr1, Htr0, <- !app_assoc in Htr. apply app_inv_head in Htr as <-.
    by rewrite !entered_app, Hpre, Hpost, app_nil_r.
  - destruct (Hpool _ _ Hrun1) as (mid & Htr1 & Hmid).
    rewrite Htr1, Htr0, <- !app_assoc in Htr. apply app_inv_head in Htr as <-.
    by rewrite !entered_app, Hpre.
Qed.

Lemma run_questions_parallel_enters_all_witness :
  let run := run_questions None 2 [Scenario.q2; Scenario.q1] Scenario.model_offline 1
               4096 Scenario.answer_file None false None false false
               (Scenario.world0 Scenario.tape_reversed) in
  Permutation (entered (trace (snd run))) [Scenario.q2; Scenario.q1].
Proof.
  intros run.
  apply (run_questions_parallel_enters_all None 2 [Scenario.q2; Scenario.q1]
           Scenario.model_offline 1 4096 Scenario.answer_file None false None false
           false (Scenario.world0 Scenario.tape_reversed) (snd run) (fst run)
           (trace (snd run)));
    [lia | reflexivity | apply surjective_pairing | reflexivity].
Defined.

(** Both calls fail, the second to complete as well as the first, and both
    were entered; the sequential branch stops at the first. *)
Example run_questions_parallel_failures :
  let parallel := run_questions None 2 [Scenario.q2; Scenario.q1] Scenario.model_offline
                    1 4096 Scenario.answer_file None false None false false
                    (Scenario.world0 Scenario.tape_reversed) in
  let sequential := run_questions None 1 [Scenario.q2; Scenario.q1]
                      Scenario.model_offline 1 4096 Scenario.answer_file None false
                      None false false (Scenario.world0 Scenario.tape_reversed) in
  fst parallel = Raise AssertionError
  /\ entered (trace (snd parallel)) = [Scenario.q1; Scenario.q2]
  /\ fst sequential = Raise AssertionError
  /\ entered (trace (snd sequential)) = [Scenario.q2].
Proof. vm_compute. done. Qed.

(** X18. A batch that returns has appended to the answer file exactly one
    answer record per question of the list: the question ids of the records
    appended are those of the questions, up to order, in either branch. *)
Theorem run_questions_answers_all {E} `{Environment E} `{PyStr} `{!Imports E}
    (args : option Args.t) (parallel : Z) (qs : list Question.t) (model : Model E)
    (num_choices max_tokens : Z) (answer_file : text) (api_dict : option ApiDict.t)
    (stream : bool) (ft : option Q) (rp an : bool) (w w' : World E)
    (evs : list Event) :
  run_questions args parallel qs model num_choices max_tokens answer_file api_dict
    stream ft rp an w = (Ok tt, w') ->
  trace w' = trace w ++ evs ->
  Permutation (List.map Answer.question_id (answers_appended answer_file evs))
    (List.map Question.question_id qs).
Proof.
  intros Hrun Htr.
  apply run_questions_run in Hrun
    as (pre & segs & picked & post & fs0 & fs1 & Htr' & Hpre & Hsegs & _ & _ & _ & _
        & Hpost & Hok & _).
  rewrite Htr in Htr'. apply app_inv_head in Htr' as ->.
  destruct (Hok eq_refl) as (Hall & Hperm & _).
  destruct (segments_summary _ _ _ Hsegs) as (_ & _ & _ & Hans).
  assert (Hpre' : answers_appended answer_file pre = []).
  { destruct Hpre as [[-> _] | (_ & -> & _)]; done. }
  assert (Hpost' : answers_appended answer_file post = []).
  { destruct Hpost as [[-> _] | (-> & _)]; done. }
  rewrite !answers_appended_app, Hpre', Hpost', app_nil_r. simpl.
  rewrite (Hans Hall). by apply Permutation_map.
Qed.

Lemma run_questions_answers_all_witness :
  let run := run_questions None 2 [Scenario.q2; Scenario.q1] Scenario.model_four 1 4096
               Scenario.answer_file None false None false false
               (Scenario.world0 Scenario.tape_reversed) in
  Permutation
    (List.map Answer.question_id
       (answers_appended Scenario.answer_file (trace (snd run))))
    (List.map Question.question_id [Scenario.q2; Scenario.q1]).
Proof.
  intros run.
  apply (run_questions_answers_all None 2 [Scenario.q2; Scenario.q1] Scenario.model_four
           1 4096 Scenario.answer_file None false None false false
           (Scenario.world0 Scenario.tape_reversed) (snd run) (trace (snd run)));
    [|reflexivity].
  transitivity (fst run, snd run); [apply surjective_pairing|].
  apply (f_equal (fun r => (r, snd run))). vm_compute. reflexivity.
Defined.


(** ** A question without turns *)

Lemma choices_loop_no_turns {E} `{Environment E} `{PyStr} `{!Imports E}
    (q : Question.t) (model : Model E) max_tokens api_dict stream temperature rp an prefix
    (indices : list Z) (st : AnswerState) (w : World E) :
  Question.turns q = [] ->
  for_each indices
    (choice_body q model max_tokens api_dict stream temperature rp an prefix) st w
  = (Ok {| as_choices := as_choices st ++ List.map (fun i => Choice.mk i []) indices;
           as_total_num_tokens := as_total_num_tokens st;
           as_modified_question :=
             match indices with
             | [] => as_modified_question st
             | _ :: _ => Some (if rp || an then Some (Question.set_turns q []) else None)
             end |}, w).
Proof.
  intros Hq. revert st. induction indices as [|i indices IH]; intros st.
  - simpl. rewrite app_nil_r. by destruct st.
  - change (for_each (i :: indices) ?body st w)
      with (bind (body i st) (fun s' => for_each indices body s') w).
    unfold bind at 1. unfold choice_body at 1. rewrite Hq. simpl.
    rewrite IH. simpl. rewrite <- app_assoc. simpl.
    by destruct indices.
Qed.

(** X20. For a question without turns the model is never asked, not even
    for an API function: a well configured call with at least one choice
    returns, having made no request and written an answer record whose
    choices all have no turn and whose token count is 0; with a flag set
    the modification record it writes has no modified turn. *)
Theorem get_answer_no_turns {E} `{Environment E} `{PyStr} `{!Imports E}
    (args : option Args.t) (q : Question.t) (model : Model E)
    (num_choices max_tokens : Z) (answer_file : text) (api_dict : option ApiDict.t)
    (stream : bool) (ft : option Q) (rp an : bool) (w w' : World E) (r : Result unit)
    (evs : list Event) :
  Question.turns q = [] ->
  1 <= num_choices ->
  configured args q ft = true ->
  os_path_dirname answer_file <> [] ->
  get_answer args q model num_choices max_tokens answer_file api_dict stream ft rp an w
  = (r, w') ->
  trace w' = trace w ++ evs ->
  r = Ok tt
  /\ requests evs = []
  /\ (exists ans,
        answers_appended answer_file evs = [ans]
        /\ Answer.choices ans = List.map (fun i => Choice.mk i []) (range num_choices)
        /\ Answer.total_output_tokens ans = 0)
  /\ Forall (fun pm => Modification.modified_turns (snd pm) = [])
       (modifications_appended evs).
Proof.
  intros Hq Hn Hcfg Hdir Hrun Htr.
  assert (Hok : r = Ok tt).
  { destruct (resolve_temperature_configured args q ft Hcfg) as [temperature Hres].
    destruct (range_positive _ Hn) as [indices Hrange].
    unfold get_answer in Hrun.
    apply bind_inv in Hrun as [([] & w0 & Hemit & Hrun) | (e' & Hemit & _)];
      [|discriminate].
    apply bind_inv in Hrun as [(temperature' & w1 & _ & Hrun) | (e' & Hres' & _)];
      cycle 1.
    { rewrite Hres in Hres'. discriminate. }
    apply bind_inv in Hrun as [(prefix & w2 & Hpre & Hrun) | (e' & Hpre & _)]; cycle 1.
    { destruct rp; [|discriminate]. unfold from_env in Hpre.
      destruct (make_random_prefix _); discriminate. }
    apply bind_inv in Hrun as [(st & w3 & Hloop & Hrun) | (e' & Hloop & _)]; cycle 1.
    { rewrite (choices_loop_no_turns q model max_tokens api_dict stream temperature' rp
                 an prefix _ _ w2 Hq) in Hloop. discriminate. }
    rewrite (choices_loop_no_turns q model max_tokens api_dict stream temperature' rp an
               prefix _ _ w2 Hq) in Hloop.
    injection Hloop as <- <-. rewrite Hrange in Hrun.
    unfold bind, from_env, os_makedirs in Hrun. simpl in Hrun.
    destruct (shortuuid_uuid (env w2)) as [x e4]. simpl in Hrun.
    destruct (time_time e4) as [y e5]. simpl in Hrun.
    destruct (os_path_dirname answer_file) as [|c d]; [done|]. simpl in Hrun.
    destruct (rp || an); simpl in Hrun.
    - destruct (time_time e5). by injection Hrun as <- _.
    - by injection Hrun as <- _. }
  subst r. split; [done|].
  apply get_answer_run in Hrun as [(e & reqs & He & _) | Hw]; [discriminate|].
  destruct Hw as (temperature & chunks & ans & tail & _ & Hlen & Hall & _ & _ & Hchoices
                  & Htokens & _ & Htr' & Hlast).
  rewrite Htr in Htr'. apply app_inv_head in Htr' as ->.
  assert (Hnil : Forall (fun c => c = []) chunks).
  { eapply Forall_impl; [exact Hall|]. intros c [_ Hc]. rewrite Hq in Hc. simpl in Hc.
    by apply Forall2_nil_inv_r in Hc. }
  assert (Hconcat : concat chunks = []).
  { clear -Hnil. induction Hnil as [|c chunks -> _ IH]; [done|]. exact IH. }
  assert (Hzip : zip_with (fun i c => Choice.mk i (outputs c)) (range num_choices) chunks
                 = List.map (fun i => Choice.mk i []) (range num_choices)).
  { clear -Hnil Hlen. revert Hlen. generalize (range num_choices) as indices.
    induction Hnil as [|c chunks -> _ IH]; intros [|i indices] Hlen; try done.
    simpl. f_equal. apply IH. by injection Hlen. }
  assert (Htail : tail = []
                  \/ exists m, tail = [EvAppend (questions_file_of answer_file)
                                         (ModificationLine m)]
                               /\ Modification.modified_turns m = []).
  { destruct (last chunks) as [c|] eqn:Hl.
    - assert (c = []) as ->.
      { apply last_Some in Hl as [l' ->]. apply Forall_app in Hnil as [_ Hc].
        by apply Forall_inv in Hc. }
      destruct Hlast as [_ Hlast]. destruct (rp || an).
      + destruct Hlast as (m & -> & _ & _ & _ & _ & Hm & _). right. by exists m.
      + left. by destruct Hlast.
    - left. by destruct Hlast as (_ & -> & _). }
  rewrite Hconcat, app_nil_l.
  assert (Htail' : requests tail = [] /\ answers_appended answer_file tail = []
                   /\ Forall (fun pm => Modification.modified_turns (snd pm) = [])
                        (modifications_appended tail)).
  { destruct Htail as [-> | (m & -> & Hm)]; [done|].
    split; [done|]. split; [done|]. simpl. by constructor. }
  destruct Htail' as (Hr & Ha & Hm).
  rewrite (cons_as_app (EvGetAnswer q)), (cons_as_app (EvAppend _ _)).
  split; [|split].
  - by rewrite !requests_app, Hr.
  - exists ans. rewrite !answers_appended_app, Ha, answers_appended_answer.
    split; [done|]. split.
    + by rewrite Hchoices, Hzip.
    + by rewrite Htokens, Hconcat.
  - by rewrite !modifications_appended_app.
Qed.

Lemma get_answer_no_turns_witness :
  let run := get_answer None Scenario.q_empty Scenario.model_offline 2 4096
               Scenario.answer_file None false None true true
               (Scenario.world0 Scenario.tape0) in
  fst run = Ok tt
  /\ requests (trace (snd run)) = []
  /\ (exists ans,
        answers_appended Scenario.answer_file (trace (snd run)) = [ans]
        /\ Answer.choices ans = List.map (fun i => Choice.mk i []) (range 2)
        /\ Answer.total_output_tokens ans = 0)
  /\ Forall (fun pm => Modification.modified_turns (snd pm) = [])
       (modifications_appended (trace (snd run))).
Proof.
  intros run.
  apply (get_answer_no_turns None Scenario.q_empty Scenario.model_offline 2 4096
           Scenario.answer_file None false None true true
           (Scenario.world0 Scenario.tape0) (snd run) (fst run) (trace (snd run)));
    [reflexivity | lia | reflexivity | discriminate | apply surjective_pairing
    | reflexivity].
Defined.
